(** * files_scanner: the INI value converter and the depth-controlled directory scanner

    A shallow embedding of [cfp2json.py] ([infer_type]) and of
    [filesindir_recursive.py] ([validate_path], [validate_extension],
    [print_list], [get_files_by_extension] with its inner [collect_files],
    [process_and_print_files]), together with the part of the Python runtime
    these functions call into: [str.strip], [str.lower], [re.fullmatch] on the
    two patterns used, [int], and [pathlib]'s [exists], [is_dir], [glob],
    [rglob], [iterdir], [name] and [stem].

    Conventions.
    - A Python [str] is a [string] whose characters are read as the code
      points U+0000..U+00FF.
    - A Python [int] is a [Z].
    - The filesystem below the scanned directory is a finite tree ([node]);
      symbolic links and cycles are outside the model.
    - [pathlib] is the POSIX flavour: matching is case-sensitive.
    - The modules [Recursive], [Batch], [Flat], [Simple] and [Cfp2json] are
      the scripts on a filesystem where [os.stat] always answers and under
      an interpreter without a limit on integer digits; [Fallible] and
      [Limited] are the same functions with the exceptions of [os.stat] and
      of [int]. *)

From Stdlib Require Import List String Ascii ZArith Lia Bool.
Import ListNotations.
Open Scope string_scope.
Open Scope Z_scope.

Set Implicit Arguments.

(** ** Text *)

Module Text.

(** Code point of a character. *)
Definition code (c : ascii) : nat := nat_of_ascii c.

Definition between (lo hi : nat) (c : ascii) : bool :=
  (Nat.leb lo (code c) && Nat.leb (code c) hi)%bool.

(** [str.isspace] on one code point below 256: TAB..CR, FS..US, SPACE,
    NEL (0x85) and NBSP (0xA0). *)
Definition isspace (c : ascii) : bool :=
  (between 9 13 c || between 28 32 c || Nat.eqb (code c) 133
   || Nat.eqb (code c) 160)%bool.

(** [\d] of [re] on a code point below 256: the ten ASCII digits. *)
Definition isdigit (c : ascii) : bool := between 48 57 c.

(** [str.lower] on one code point below 256: A..Z and the Latin-1 capitals
    U+00C0..U+00DE (the multiplication sign U+00D7 apart) move up by 32. *)
Definition lower_char (c : ascii) : ascii :=
  if (between 65 90 c || (between 192 222 c && negb (Nat.eqb (code c) 215)))%bool
  then ascii_of_nat (code c + 32)
  else c.

Fixpoint lower (s : string) : string :=
  match s with
  | EmptyString => EmptyString
  | String c t => String (lower_char c) (lower t)
  end.

Fixpoint lstrip (s : string) : string :=
  match s with
  | EmptyString => EmptyString
  | String c t => if isspace c then lstrip t else s
  end.

Fixpoint rstrip (s : string) : string :=
  match s with
  | EmptyString => EmptyString
  | String c t =>
      match rstrip t with
      | EmptyString => if isspace c then EmptyString else String c EmptyString
      | t' => String c t'
      end
  end.

(** [str.strip()] with no argument. *)
Definition strip (s : string) : string := rstrip (lstrip s).

Fixpoint all_digits (s : string) : bool :=
  match s with
  | EmptyString => true
  | String c t => (isdigit c && all_digits t)%bool
  end.

(** [re.fullmatch(r'\d+', v)] as a truth value. *)
Definition fullmatch_digits (v : string) : bool :=
  match v with
  | EmptyString => false
  | String _ _ => all_digits v
  end.

(** The rest of [\d+\.\d*] once one digit has been consumed. *)
Fixpoint decimal_tail (s : string) : bool :=
  match s with
  | EmptyString => false
  | String c t =>
      if isdigit c then decimal_tail t
      else if Ascii.eqb c "." then all_digits t
      else false
  end.

(** [re.fullmatch(r'\d+\.\d*', v)] as a truth value. *)
Definition fullmatch_decimal (v : string) : bool :=
  match v with
  | EmptyString => false
  | String c t => (isdigit c && decimal_tail t)%bool
  end.

Definition digit_value (c : ascii) : Z := Z.of_nat (code c) - 48.

Fixpoint int_from (acc : Z) (s : string) : Z :=
  match s with
  | EmptyString => acc
  | String c t => int_from (10 * acc + digit_value c) t
  end.

(** [int(v)] on a string of decimal digits. *)
Definition int (v : string) : Z := int_from 0 v.

(** [name.endswith(suffix)]. *)
Fixpoint endswith (name suffix : string) : bool :=
  (String.eqb name suffix
   || match name with
      | EmptyString => false
      | String _ t => endswith t suffix
      end)%bool.

(** [name.rfind(c)]: the index of the last occurrence, or -1. *)
Fixpoint rfind (c : ascii) (name : string) : Z :=
  match name with
  | EmptyString => -1
  | String a t =>
      let r := rfind c t in
      if 0 <=? r then r + 1 else if Ascii.eqb a c then 0 else -1
  end.

(** The slice [name[:i]] for [0 <= i]. *)
Fixpoint take (i : nat) (name : string) : string :=
  match i, name with
  | O, _ => EmptyString
  | S _, EmptyString => EmptyString
  | S j, String a t => String a (take j t)
  end.

Definition len (s : string) : Z := Z.of_nat (String.length s).

Fixpoint join (sep : string) (items : list string) : string :=
  match items with
  | [] => EmptyString
  | [x] => x
  | x :: rest => x ++ sep ++ join sep rest
  end.

(** No dot anywhere in the string. *)
Fixpoint dotless (s : string) : bool :=
  match s with
  | EmptyString => true
  | String c t => (negb (Ascii.eqb c ".") && dotless t)%bool
  end.

(** A dot followed by at least one character, none of them a dot: the form
    of a file-name extension. *)
Definition dotted_suffix (s : string) : bool :=
  match s with
  | EmptyString => false
  | String c t =>
      (Ascii.eqb c "." && negb (String.eqb t EmptyString) && dotless t)%bool
  end.

(** Strings of decimal digits. *)
Inductive digits : string -> Prop :=
| digits_empty : digits EmptyString
| digits_more c t : isdigit c = true -> digits t -> digits (String c t).

End Text.

(** ** cfp2json.py *)

Module Cfp2json.
Import Text.

(** What [infer_type] returns: a [bool], an [int], a [float] or a [str].
    Floating-point conversion is not modelled: [VFloat] carries the decimal
    literal that the source hands to [float]. *)
Inductive value : Type :=
| VBool (b : bool)
| VInt (n : Z)
| VFloat (literal : string)
| VStr (s : string).

Definition member (x : string) (xs : list string) : bool :=
  existsb (String.eqb x) xs.

Definition infer_type (val : string) : value :=
  let v := strip val in
  let lower := lower v in
  if member lower ["true"; "yes"; "on"] then VBool true
  else if member lower ["false"; "no"; "off"] then VBool false
  else if fullmatch_digits v then VInt (int v)
  else if fullmatch_decimal v then VFloat v
  else VStr v.

(** *** The forms of value that the converter tells apart *)

Definition truthy (s : string) : Prop := s = "true" \/ s = "yes" \/ s = "on".

Definition falsy (s : string) : Prop := s = "false" \/ s = "no" \/ s = "off".

(** One digit or more. *)
Definition pure_digits (s : string) : Prop := s <> EmptyString /\ digits s.

(** One digit or more, a dot, then any number of digits (none included). *)
Definition digits_dot_digits (s : string) : Prop :=
  exists a b, s = a ++ "." ++ b /\ pure_digits a /\ digits b.

End Cfp2json.

(** ** pathlib over a tree-shaped filesystem *)

Module Pathlib.
Import Text.

(** The exceptions a directory access can raise.  [OSError] stands for every
    [OSError] that is not a [PermissionError]. *)
Inductive oserror : Type := PermissionError | OSError.

(** Which listing errors [glob] and [rglob] absorb by themselves differs
    between CPython releases: up to 3.11 the selectors catch
    [PermissionError] only, from 3.12 on they catch every [OSError]. *)
Inductive runtime : Type := Py311 | Py312.

Definition absorbs (rt : runtime) (e : oserror) : bool :=
  match rt, e with
  | _, PermissionError => true
  | Py312, OSError => true
  | Py311, OSError => false
  end.

(** What lies at a path: something that is not a directory, or a directory
    with its entries in listing order.  [failure = Some e] is a directory
    whose listing ([os.scandir], [os.listdir]) raises [e]; its entries are
    still there, only out of reach. *)
#[local] Unset Elimination Schemes.
Inductive node : Type :=
| File
| Dir (failure : option oserror) (entries : list (string * node)).
#[local] Set Elimination Schemes.

(** The induction principle of [node], with the hypothesis on every entry
    of a directory. *)
Section NodeInduction.

Variable P : node -> Prop.
Hypothesis P_file : P File.
Hypothesis P_dir :
  forall failure entries, Forall (fun entry => P (snd entry)) entries ->
                          P (Dir failure entries).

Fixpoint node_ind (n : node) : P n :=
  match n with
  | File => P_file
  | Dir failure entries =>
      P_dir failure
        ((fix each (l : list (string * node)) : Forall (fun entry => P (snd entry)) l :=
            match l with
            | [] => Forall_nil _
            | entry :: rest => Forall_cons entry (node_ind (snd entry)) (each rest)
            end) entries)
  end.

End NodeInduction.

(** A path below the scanned directory, as its components; [[]] is the
    scanned directory itself. *)
Definition path : Type := list string.

Definition child (directory : path) (name : string) : path :=
  (directory ++ [name])%list.

Inductive outcome (A : Type) : Type :=
| Returned (a : A)
| Raised (e : oserror).
Arguments Returned {A} a.
Arguments Raised {A} e.

Definition is_dir (n : node) : bool :=
  match n with
  | File => false
  | Dir _ _ => true
  end.

(** The single-level pattern [*<extension>] against one name.  For an
    extension free of glob metacharacters and separators (every allow-listed
    extension, in any letter case) [fnmatch] compiles the pattern to
    [.*<extension>] anchored at both ends: a suffix test. *)
Definition glob_match (extension name : string) : bool := endswith name extension.

(** What the pattern is meant to select: the names that end with the
    extension, letter case included. *)
Definition has_suffix (extension name : string) : Prop :=
  exists prefix, name = prefix ++ extension.

(** [directory.glob("*" + extension)], consumed to the end. *)
Definition glob (rt : runtime) (directory : path) (n : node) (extension : string)
  : outcome (list path) :=
  match n with
  | File => Returned []
  | Dir None entries =>
      Returned (map (child directory) (filter (glob_match extension) (map fst entries)))
  | Dir (Some e) _ => if absorbs rt e then Returned [] else Raised e
  end.

(** [directory.iterdir()], consumed to the end. *)
Definition iterdir (n : node) : outcome (list (string * node)) :=
  match n with
  | File => Raised OSError
  | Dir None entries => Returned entries
  | Dir (Some e) _ => Raised e
  end.

Definition extend (A : Type) (found : outcome (list A)) (rest : outcome (list A))
  : outcome (list A) :=
  match found with
  | Raised e => Raised e
  | Returned l =>
      match rest with
      | Raised e => Raised e
      | Returned r => Returned (l ++ r)%list
      end
  end.

(** [directory.rglob("*" + extension)], consumed to the end: the pattern
    [**/*<extension>], every directory of the subtree in pre-order, each
    matched like [glob]. *)
Fixpoint rglob (rt : runtime) (directory : path) (n : node) (extension : string)
  : outcome (list path) :=
  match n with
  | File => Returned []
  | Dir (Some e) _ => if absorbs rt e then Returned [] else Raised e
  | Dir None entries =>
      extend
        (Returned (map (child directory) (filter (glob_match extension) (map fst entries))))
        (fold_right
           (fun entry rest =>
              extend (rglob rt (child directory (fst entry)) (snd entry) extension) rest)
           (Returned []) entries)
  end.

(** [Path.name]: the last component. *)
Definition name (f : path) : string := last f EmptyString.

(** [Path.stem]: the last component minus its last suffix. *)
Definition stem (f : path) : string :=
  let name := name f in
  let i := rfind "." name in
  if ((0 <? i) && (i <? len name - 1))%bool then take (Z.to_nat i) name else name.

(** *** What the tree holds, and what a traversal can reach *)

(** [located root p t]: the filesystem holds [t] at the path [p] below
    [root], whether or not the directories on the way can be listed. *)
Inductive located : node -> path -> node -> Prop :=
| located_entry failure entries nm t :
    In (nm, t) entries -> located (Dir failure entries) [nm] t
| located_below failure entries nm sub rest t :
    In (nm, sub) entries -> located sub rest t ->
    located (Dir failure entries) (nm :: rest) t.

(** [listed root p t]: as [located], through directories whose listing
    succeeds, from [root] down to the parent of [p]. *)
Inductive listed : node -> path -> node -> Prop :=
| listed_entry entries nm t :
    In (nm, t) entries -> listed (Dir None entries) [nm] t
| listed_below entries nm sub rest t :
    In (nm, sub) entries -> listed sub rest t ->
    listed (Dir None entries) (nm :: rest) t.

(** Every directory of the tree can be listed. *)
Fixpoint readable (n : node) : bool :=
  match n with
  | File => true
  | Dir (Some _) _ => false
  | Dir None entries => forallb (fun entry => readable (snd entry)) entries
  end.

(** Every directory that a traversal reaches and cannot list fails with an
    error that [glob] absorbs by itself under [rt]. *)
Fixpoint tolerated (rt : runtime) (n : node) : bool :=
  match n with
  | File => true
  | Dir (Some e) _ => absorbs rt e
  | Dir None entries => forallb (fun entry => tolerated rt (snd entry)) entries
  end.

(** Every directory that a traversal reaches and cannot list fails with a
    [PermissionError]. *)
Fixpoint permission_only (n : node) : bool :=
  match n with
  | File => true
  | Dir (Some PermissionError) _ => true
  | Dir (Some OSError) _ => false
  | Dir None entries => forallb (fun entry => permission_only (snd entry)) entries
  end.

(** The nesting depth of an entry: the number of directories between the
    scanned directory and the entry, so that the direct children of the
    scanned directory are at depth 0 and [a/b/c/file.ext] is at depth 3. *)
Definition nesting_depth (p : path) : Z := Z.of_nat (List.length p) - 1.

(** The reach of a scan with the given [depth] argument. *)
Definition within (depth : Z) (p : path) : Prop :=
  depth = -1 \/ nesting_depth p <= Z.max 0 depth.

(** What a traversal from [n], itself at [directory], may report. *)
Definition reported (extension : string) (directory : path) (n : node)
    (ok : path -> Prop) (p : path) : Prop :=
  exists rel t,
    p = (directory ++ rel)%list /\ listed n rel t
    /\ glob_match extension (name rel) = true /\ ok rel.

(** How far below a directory at [current_depth] the bounded traversal
    still reports entries. *)
Definition in_bound (current_depth max_depth : Z) (rel : path) : Prop :=
  List.length rel = 1%nat \/ nesting_depth rel <= max_depth - current_depth.

End Pathlib.

(** ** filesindir_recursive.py *)

Module Recursive.
Import Text Pathlib.

(** The calls into the filesystem that the script makes, in order. *)
Inductive fs_call : Type :=
| CallExists (p : path)
| CallIsDir (p : path)
| CallGlob (p : path)
| CallRglob (p : path)
| CallIterdir (p : path).

(** The description of the depth in the report header. *)
Inductive depth_text : Type :=
| CurrentDirectoryOnly
| UnlimitedRecursion
| LevelsDeep (depth : Z).

(** The lines the script prints. *)
Inductive output : Type :=
| MsgMissing (directory : string)            (* Directory <d> does not exist - skipping *)
| MsgNotADirectory (directory : string)      (* <d> is not a directory - skipping *)
| MsgUnknownExtension (extension : string)   (* Unknown extension '<e>' - skipping *)
| MsgHeader (directory extension : string) (text : depth_text)
| MsgList (label body : string).             (* <label>:\n <body> *)

(** One call of the script's entry point, as the caller sees it. *)
Record run : Type := {
  calls : list fs_call;
  stdout : list output;
  raised : option oserror
}.

Definition KNOWN_EXTENSIONS : list string :=
  [".txt"; ".docx"; ".pdf"; ".py"; ".md"; ".csv"; ".xlsx";
   ".jpg"; ".png"; ".gif"; ".mp4"; ".mp3"; ".zip"; ".json"].

Definition known_extension (extension : string) : bool :=
  existsb (String.eqb (lower extension)) KNOWN_EXTENSIONS.

Definition print_list (label : string) (items : list string) : output :=
  match items with
  | [] => MsgList label "None found"
  | _ :: _ => MsgList label (join ", " items)
  end.

(** The accumulator [files] that [collect_files] closes over, with the
    filesystem calls made so far. *)
Record scan_state : Type := {
  files : list path;
  made : list fs_call
}.

Definition call (c : fs_call) (st : scan_state) : scan_state :=
  {| files := files st; made := (made st ++ [c])%list |}.

Definition files_extend (found : list path) (st : scan_state) : scan_state :=
  {| files := (files st ++ found)%list; made := made st |}.

Section Scan.

Variable rt : runtime.

(** The inner function of [get_files_by_extension].  The [try] block ends
    at the first exception, and the handler does nothing.  The loop over
    [current_dir.iterdir()] is the [match] on [n]: the entries of a
    directory that lists ([iterdir n = Returned entries]), an exception
    otherwise. *)
Fixpoint collect_files (extension : string) (current_dir : path) (n : node)
    (current_depth max_depth : Z) (st : scan_state) : scan_state :=
  let st := call (CallGlob current_dir) st in
  match glob rt current_dir n extension with
  | Raised _ => st
  | Returned found =>
      let st := files_extend found st in
      if current_depth <? max_depth then
        let st := call (CallIterdir current_dir) st in
        match n with
        | Dir None entries =>
            fold_left
              (fun st entry =>
                 let subdir := child current_dir (fst entry) in
                 let st := call (CallIsDir subdir) st in
                 if is_dir (snd entry)
                 then collect_files extension subdir (snd entry)
                        (current_depth + 1) max_depth st
                 else st)
              entries st
        | _ => st
        end
      else st
  end.

Definition get_files_by_extension (directory : node) (extension : string) (depth : Z)
  : list fs_call * outcome (list path) :=
  if depth =? 0 then
    ([CallGlob []], glob rt [] directory extension)
  else if depth =? -1 then
    ([CallRglob []], rglob rt [] directory extension)
  else
    let st := collect_files extension [] directory 0 depth {| files := []; made := [] |} in
    (made st, Returned (files st)).

Definition describe (depth : Z) : depth_text :=
  if depth =? 0 then CurrentDirectoryOnly
  else if depth =? -1 then UnlimitedRecursion
  else LevelsDeep depth.

(** The undecorated body of [process_and_print_files]. *)
Definition report (directory : node) (shown extension : string) (depth : Z) : run :=
  match get_files_by_extension directory extension depth with
  | (cs, Raised e) => {| calls := cs; stdout := []; raised := Some e |}
  | (cs, Returned files) =>
      let files_with_ext := map name files in
      let file_stems := map stem files in
      {| calls := cs;
         stdout := [MsgHeader shown extension (describe depth);
                    print_list "files with extensions" files_with_ext;
                    print_list "file stems" file_stems];
         raised := None |}
  end.

Definition after (cs : list fs_call) (r : run) : run :=
  {| calls := (cs ++ calls r)%list; stdout := stdout r; raised := raised r |}.

(** The decorator [validate_extension]. *)
Definition validate_extension (func : node -> string -> string -> Z -> run)
  : node -> string -> string -> Z -> run :=
  fun directory shown extension depth =>
    if negb (known_extension extension) then
      {| calls := []; stdout := [MsgUnknownExtension extension]; raised := None |}
    else func directory shown extension depth.

(** The decorator [validate_path].  [directory] is what the filesystem
    holds at the path ([None]: nothing), [shown] the path as printed; the
    wrapped function runs on a path known to hold something. *)
Definition validate_path (func : node -> string -> string -> Z -> run)
  : option node -> string -> string -> Z -> run :=
  fun directory shown extension depth =>
    match directory with
    | None =>
        {| calls := [CallExists []]; stdout := [MsgMissing shown]; raised := None |}
    | Some n =>
        if negb (is_dir n) then
          {| calls := [CallExists []; CallIsDir []];
             stdout := [MsgNotADirectory shown]; raised := None |}
        else after [CallExists []; CallIsDir []] (func n shown extension depth)
    end.

(** [@validate_path @validate_extension def process_and_print_files]. *)
Definition process_and_print_files : option node -> string -> string -> Z -> run :=
  validate_path (validate_extension report).

End Scan.

End Recursive.

(** ** Sample trees *)

Module Samples.
Import Pathlib.

(** [a/b/c/file.txt], with more entries on the way down. *)
Definition nested : node :=
  Dir None
    [("a", Dir None
             [("b", Dir None
                      [("c", Dir None [("file.txt", File)]);
                       ("x.txt", File)]);
              ("notes.md", File)]);
     ("top.txt", File);
     ("TOP.TXT", File)].

(** [ok/match.txt] beside a directory whose listing is refused. *)
Definition guarded : node :=
  Dir None
    [("ok", Dir None [("match.txt", File)]);
     ("denied", Dir (Some PermissionError) [("secret.txt", File)])].

(** [ok/match.txt] beside a directory whose listing fails with an
    [OSError] that is not a [PermissionError]. *)
Definition faulty : node :=
  Dir None
    [("ok", Dir None [("match.txt", File)]);
     ("broken", Dir (Some OSError) [("lost.txt", File)])].

(** A directory that cannot be listed at all. *)
Definition unlistable : node := Dir (Some OSError) [("lost.txt", File)].

(** A file named by the extension alone, and a directory whose name
    carries the extension. *)
Definition unusual : node :=
  Dir None
    [(".txt", File);
     ("report.txt", File);
     ("archive.txt", Dir None [("inner.txt", File)])].

End Samples.

(** ** filesindir_recursive.py: the batch driver *)

Module Batch.
Import Text Pathlib Recursive.

(** One element of [dir_depth_pairs]: a directory (what the filesystem
    holds at its path, and the path as printed) with its depth setting. *)
Record target : Type := {
  holds : option node;
  shown : string;
  depth : Z
}.

(** One statement after another: the second runs only when the first
    raised nothing. *)
Definition and_then (first next : run) : run :=
  match raised first with
  | Some _ => first
  | None =>
      {| calls := (calls first ++ calls next)%list;
         stdout := (stdout first ++ stdout next)%list;
         raised := raised next |}
  end.

Definition finished : run := {| calls := []; stdout := []; raised := None |}.

(** [for (directory, depth), extension in itertools.product(...)]: the
    pairs in order, and for each pair the extensions in order.  The calls
    of every scan are recorded relative to its own directory. *)
Definition scan_directories (rt : runtime) (dir_depth_pairs : list target)
    (extensions : list string) : run :=
  fold_right
    (fun combination rest =>
       and_then
         (process_and_print_files rt (holds (fst combination)) (shown (fst combination))
            (snd combination) (depth (fst combination)))
         rest)
    finished (list_prod dir_depth_pairs extensions).

End Batch.

(** ** filesindir_flat.py *)

Module Flat.
Import Text Pathlib.

(** The lines the script prints. *)
Inductive output : Type :=
| MsgMissing (directory : string)            (* Directory <d> does not exist - skipping *)
| MsgNotADirectory (directory : string)      (* <d> is not a directory - skipping *)
| MsgUnknownExtension (extension : string)   (* Unknown extension '<e>' - skipping *)
| MsgHeader (directory extension : string)   (* \nFiles in <d> with extension <e>: *)
| MsgList (label body : string).             (* <label>:\n <body> *)

Record run : Type := {
  calls : list Recursive.fs_call;
  stdout : list output;
  raised : option oserror
}.

Definition KNOWN_EXTENSIONS : list string :=
  [".txt"; ".docx"; ".pdf"; ".py"; ".md"; ".csv"; ".xlsx";
   ".jpg"; ".png"; ".gif"; ".mp4"; ".mp3"; ".zip"; ".json"].

Definition known_extension (extension : string) : bool :=
  existsb (String.eqb (lower extension)) KNOWN_EXTENSIONS.

Definition print_list (label : string) (items : list string) : output :=
  match items with
  | [] => MsgList label "None found"
  | _ :: _ => MsgList label (join ", " items)
  end.

Section Scan.

Variable rt : runtime.

Definition get_files_by_extension (directory : node) (extension : string)
  : list Recursive.fs_call * outcome (list path) :=
  ([Recursive.CallGlob []], glob rt [] directory extension).

(** The undecorated body of [process_and_print_files]. *)
Definition report (directory : node) (shown extension : string) : run :=
  match get_files_by_extension directory extension with
  | (cs, Raised e) => {| calls := cs; stdout := []; raised := Some e |}
  | (cs, Returned files) =>
      let files_with_ext := map name files in
      let file_stems := map stem files in
      {| calls := cs;
         stdout := [MsgHeader shown extension;
                    print_list "files with extensions" files_with_ext;
                    print_list "file stems" file_stems];
         raised := None |}
  end.

Definition after (cs : list Recursive.fs_call) (r : run) : run :=
  {| calls := (cs ++ calls r)%list; stdout := stdout r; raised := raised r |}.

Definition validate_extension (func : node -> string -> string -> run)
  : node -> string -> string -> run :=
  fun directory shown extension =>
    if negb (known_extension extension) then
      {| calls := []; stdout := [MsgUnknownExtension extension]; raised := None |}
    else func directory shown extension.

Definition validate_path (func : node -> string -> string -> run)
  : option node -> string -> string -> run :=
  fun directory shown extension =>
    match directory with
    | None =>
        {| calls := [Recursive.CallExists []]; stdout := [MsgMissing shown];
           raised := None |}
    | Some n =>
        if negb (is_dir n) then
          {| calls := [Recursive.CallExists []; Recursive.CallIsDir []];
             stdout := [MsgNotADirectory shown]; raised := None |}
        else after [Recursive.CallExists []; Recursive.CallIsDir []]
               (func n shown extension)
    end.

Definition process_and_print_files : option node -> string -> string -> run :=
  validate_path (validate_extension report).

Definition and_then (first next : run) : run :=
  match raised first with
  | Some _ => first
  | None =>
      {| calls := (calls first ++ calls next)%list;
         stdout := (stdout first ++ stdout next)%list;
         raised := raised next |}
  end.

Definition finished : run := {| calls := []; stdout := []; raised := None |}.

(** [for directory, extension in itertools.product(directories, extensions)];
    a directory is what the filesystem holds at its path, with the path as
    printed. *)
Definition scan_directories (directories : list (option node * string))
    (extensions : list string) : run :=
  fold_right
    (fun combination rest =>
       and_then
         (process_and_print_files (fst (fst combination)) (snd (fst combination))
            (snd combination))
         rest)
    finished (list_prod directories extensions).

End Scan.

(** A line of the recursive script without its depth description. *)
Definition without_depth (o : Recursive.output) : output :=
  match o with
  | Recursive.MsgMissing d => MsgMissing d
  | Recursive.MsgNotADirectory d => MsgNotADirectory d
  | Recursive.MsgUnknownExtension e => MsgUnknownExtension e
  | Recursive.MsgHeader d e _ => MsgHeader d e
  | Recursive.MsgList label body => MsgList label body
  end.

End Flat.

(** ** filesindir_simple.py *)

Module Simple.
Import Text Pathlib.

(** The lines the script prints. *)
Inductive output : Type :=
| MsgHeader (directory extension : string)   (* Files in <d> with extension <e>: *)
| MsgList (label body : string).             (* <label>:\n <body> *)

Record run : Type := {
  calls : list Recursive.fs_call;
  stdout : list output;
  raised : option oserror
}.

Definition print_list (label : string) (items : list string) : output :=
  match items with
  | [] => MsgList label "None found"
  | _ :: _ => MsgList label (join ", " items)
  end.

(** [glob] on a path that may hold nothing: no existence check comes first,
    and under both runtimes a missing path yields no match. *)
Definition glob_at (rt : runtime) (target : option node) (extension : string)
  : outcome (list path) :=
  match target with
  | None => Returned []
  | Some n => glob rt [] n extension
  end.

(** The script, with its two settings [dir_of_interest] (what the
    filesystem holds there, and the path as printed) and [ext_of_interest]
    as arguments.  The directory is globbed twice, once for the names and
    once for the stems. *)
Definition script (rt : runtime) (dir_of_interest : option node) (shown : string)
    (ext_of_interest : string) : run :=
  match glob_at rt dir_of_interest ext_of_interest with
  | Raised e =>
      {| calls := [Recursive.CallGlob []]; stdout := []; raised := Some e |}
  | Returned first =>
      let files_with_ext := map name first in
      match glob_at rt dir_of_interest ext_of_interest with
      | Raised e =>
          {| calls := [Recursive.CallGlob []; Recursive.CallGlob []];
             stdout := []; raised := Some e |}
      | Returned second =>
          let file_stems := map stem second in
          {| calls := [Recursive.CallGlob []; Recursive.CallGlob []];
             stdout := [MsgHeader shown ext_of_interest;
                        print_list "Files with extension" files_with_ext;
                        print_list "File stems" file_stems];
             raised := None |}
      end
  end.

End Simple.

(** ** Measures of a tree *)

Module TreeMeasures.
Import Text Pathlib.

(** No string occurs twice in the list. *)
Fixpoint distinct (l : list string) : bool :=
  match l with
  | [] => true
  | x :: rest => (negb (existsb (String.eqb x) rest) && distinct rest)%bool
  end.

(** No directory lists two entries under one name. *)
Fixpoint unique_names (n : node) : bool :=
  match n with
  | File => true
  | Dir _ entries =>
      (distinct (map fst entries)
       && forallb (fun entry => unique_names (snd entry)) entries)%bool
  end.

(** Every character is whitespace. *)
Fixpoint blank (s : string) : bool :=
  match s with
  | EmptyString => true
  | String c t => (isspace c && blank t)%bool
  end.

End TreeMeasures.

(** ** Sample batches *)

Module SampleBatches.
Import Pathlib Batch.

(** A directory with a subdirectory whose listing fails with an [OSError],
    scanned without limit, before an ordinary directory. *)
Definition failing : list target :=
  [{| holds := Some Samples.faulty; shown := "faulty"; depth := -1 |};
   {| holds := Some Samples.nested; shown := "nested"; depth := 0 |}].

End SampleBatches.

(** ** The scripts where os.stat can fail *)

(** [Path.exists] and [Path.is_dir] call [os.stat].  When it fails with
    ENOENT, ENOTDIR, EBADF or ELOOP they answer [False]; every other
    [OSError] is raised to the caller: a [PermissionError] for a path below
    a directory that cannot be searched, an [OSError] for an over-long
    name.  The modules [Recursive], [Batch], [Flat] and [Simple] above are
    the scripts where no such failure occurs; this module is
    filesindir_recursive.py and filesindir_simple.py with these failures,
    and [Limited] below is cfp2json.py with the interpreter's limit on the
    digits of an integer. *)

Module Fallible.
Import Text Pathlib Recursive.

(** [stat_error p = Some e]: [os.stat] raises [e] on the path [p] below the
    scanned directory ([[]] is the scanned directory itself). *)
Definition stat_errors : Type := path -> option oserror.

Definition no_stat_error : stat_errors := fun _ => None.

(** A [for] loop inside a [try] block: the body returns the state it
    leaves and whether an exception left it; the first exception ends the
    loop. *)
Section Loop.

Variables (A S : Type) (body : S -> A -> S * bool).

Fixpoint for_each (items : list A) (st : S) : S :=
  match items with
  | [] => st
  | item :: rest =>
      match body st item with
      | (st', true) => st'
      | (st', false) => for_each rest st'
      end
  end.

End Loop.

Section Scan.

Variable rt : runtime.
Variable stat_error : stat_errors.

(** [directory.glob("*" + extension)]: before it lists anything, [glob]
    asks [is_dir] of the directory itself (CPython 3.11 and 3.12). *)
Definition glob (directory : path) (n : node) (extension : string)
  : outcome (list path) :=
  match stat_error directory with
  | Some e => Raised e
  | None => Pathlib.glob rt directory n extension
  end.

(** [directory.rglob("*" + extension)]: the same first question; the
    walk itself reads the kind of an entry from the listing. *)
Definition rglob (directory : path) (n : node) (extension : string)
  : outcome (list path) :=
  match stat_error directory with
  | Some e => Raised e
  | None => Pathlib.rglob rt directory n extension
  end.

(** The inner function of [get_files_by_extension].  Everything is inside
    the [try] block, [subdir.is_dir()] included: when it raises, the
    handler is reached from inside the loop and the remaining entries of
    [current_dir] are left alone. *)
Fixpoint collect_files (extension : string) (current_dir : path) (n : node)
    (current_depth max_depth : Z) (st : scan_state) : scan_state :=
  let st := call (CallGlob current_dir) st in
  match glob current_dir n extension with
  | Raised _ => st
  | Returned found =>
      let st := files_extend found st in
      if current_depth <? max_depth then
        let st := call (CallIterdir current_dir) st in
        match n with
        | Dir None entries =>
            for_each
              (fun st entry =>
                 let subdir := child current_dir (fst entry) in
                 let st := call (CallIsDir subdir) st in
                 match stat_error subdir with
                 | Some _ => (st, true)
                 | None =>
                     if is_dir (snd entry)
                     then (collect_files extension subdir (snd entry)
                             (current_depth + 1) max_depth st, false)
                     else (st, false)
                 end)
              entries st
        | _ => st
        end
      else st
  end.

Definition get_files_by_extension (directory : node) (extension : string) (depth : Z)
  : list fs_call * outcome (list path) :=
  if depth =? 0 then
    ([CallGlob []], glob [] directory extension)
  else if depth =? -1 then
    ([CallRglob []], rglob [] directory extension)
  else
    let st := collect_files extension [] directory 0 depth {| files := []; made := [] |} in
    (made st, Returned (files st)).

(** The undecorated body of [process_and_print_files]. *)
Definition report (directory : node) (shown extension : string) (depth : Z) : run :=
  match get_files_by_extension directory extension depth with
  | (cs, Raised e) => {| calls := cs; stdout := []; raised := Some e |}
  | (cs, Returned files) =>
      let files_with_ext := map name files in
      let file_stems := map stem files in
      {| calls := cs;
         stdout := [MsgHeader shown extension (describe depth);
                    print_list "files with extensions" files_with_ext;
                    print_list "file stems" file_stems];
         raised := None |}
  end.

(** The decorator [validate_path]: [directory.exists()] is the first
    [os.stat] of the path and raises when that fails; [directory.is_dir()]
    repeats it. *)
Definition validate_path (func : node -> string -> string -> Z -> run)
  : option node -> string -> string -> Z -> run :=
  fun directory shown extension depth =>
    match stat_error [] with
    | Some e => {| calls := [CallExists []]; stdout := []; raised := Some e |}
    | None =>
        match directory with
        | None =>
            {| calls := [CallExists []]; stdout := [MsgMissing shown]; raised := None |}
        | Some n =>
            if negb (is_dir n) then
              {| calls := [CallExists []; CallIsDir []];
                 stdout := [MsgNotADirectory shown]; raised := None |}
            else after [CallExists []; CallIsDir []] (func n shown extension depth)
        end
    end.

(** [@validate_path @validate_extension def process_and_print_files]. *)
Definition process_and_print_files : option node -> string -> string -> Z -> run :=
  validate_path (validate_extension report).

(** filesindir_simple.py: [glob] on a path that nothing has checked. *)
Definition glob_at (target : option node) (extension : string)
  : outcome (list path) :=
  match stat_error [] with
  | Some e => Raised e
  | None =>
      match target with
      | None => Returned []
      | Some n => Pathlib.glob rt [] n extension
      end
  end.

Definition script (dir_of_interest : option node) (shown : string)
    (ext_of_interest : string) : Simple.run :=
  match glob_at dir_of_interest ext_of_interest with
  | Raised e =>
      {| Simple.calls := [CallGlob []]; Simple.stdout := [];
         Simple.raised := Some e |}
  | Returned first =>
      let files_with_ext := map name first in
      match glob_at dir_of_interest ext_of_interest with
      | Raised e =>
          {| Simple.calls := [CallGlob []; CallGlob []]; Simple.stdout := [];
             Simple.raised := Some e |}
      | Returned second =>
          let file_stems := map stem second in
          {| Simple.calls := [CallGlob []; CallGlob []];
             Simple.stdout :=
               [Simple.MsgHeader shown ext_of_interest;
                Simple.print_list "Files with extension" files_with_ext;
                Simple.print_list "File stems" file_stems];
             Simple.raised := None |}
      end
  end.

End Scan.

(** One element of [dir_depth_pairs], with the stat failures below it. *)
Record target : Type := {
  holds : option node;
  unreadable : stat_errors;
  shown : string;
  depth : Z
}.

Definition scan_directories (rt : runtime) (dir_depth_pairs : list target)
    (extensions : list string) : run :=
  fold_right
    (fun combination rest =>
       Batch.and_then
         (process_and_print_files rt (unreadable (fst combination))
            (holds (fst combination)) (shown (fst combination))
            (snd combination) (depth (fst combination)))
         rest)
    Batch.finished (list_prod dir_depth_pairs extensions).

(** *** What the bounded traversal reaches *)

(** The loop over [entries] gets as far as the entry [(nm, sub)]: no
    [is_dir] raises before it or on it. *)
Definition loop_reaches (stat_error : stat_errors) (directory : path)
    (entries : list (string * node)) (nm : string) (sub : node) : Prop :=
  exists before later,
    entries = (before ++ (nm, sub) :: later)%list
    /\ forall entry, In entry (before ++ [(nm, sub)])%list ->
                     stat_error (child directory (fst entry)) = None.

(** [visited stat_error directory n rel t]: the entry [t] at [rel] below
    [n], itself at [directory], is in a directory that the bounded
    traversal lists: every directory on the way lists, and in each of them
    the loop gets as far as the next one. *)
Inductive visited (stat_error : stat_errors) : path -> node -> path -> node -> Prop :=
| visited_entry directory entries nm t :
    In (nm, t) entries -> visited stat_error directory (Dir None entries) [nm] t
| visited_below directory entries nm sub rest t :
    loop_reaches stat_error directory entries nm sub ->
    visited stat_error (child directory nm) sub rest t ->
    visited stat_error directory (Dir None entries) (nm :: rest) t.

(** What a scan from the root can report: nothing when the root itself
    cannot be examined; with depth 0 or -1 the entries below listed
    directories, otherwise the entries that the bounded traversal
    reaches. *)
Definition scanned (stat_error : stat_errors) (depth : Z) (root : node)
    (p : path) (t : node) : Prop :=
  stat_error [] = None
  /\ if ((depth =? 0) || (depth =? -1))%bool
     then listed root p t
     else visited stat_error [] root p t.

End Fallible.

(** ** cfp2json.py under the limit on integer digits *)

Module Limited.
Import Text Cfp2json.

(** What [infer_type] does: it returns a value or raises [ValueError]. *)
Inductive result : Type :=
| Value (v : value)
| ValueError.

(** [sys.int_info.str_digits_check_threshold]: a shorter string is
    converted without looking at the limit, and no limit other than 0 can
    be set below it. *)
Definition str_digits_check_threshold : nat := 640.

(** [int(v)] on a string of digits.  [max_str_digits] is
    [sys.get_int_max_str_digits()]: 4300 by default in the releases that
    have the limit (CPython 3.11 and later), 0 for no limit and for the
    releases without it.  Leading zeros count as digits. *)
Definition int (max_str_digits : nat) (v : string) : option Z :=
  if (Nat.ltb str_digits_check_threshold (String.length v)
      && Nat.ltb 0 max_str_digits
      && Nat.ltb max_str_digits (String.length v))%bool
  then None
  else Some (Text.int v).

Definition infer_type (max_str_digits : nat) (val : string) : result :=
  let v := strip val in
  let lower := lower v in
  if member lower ["true"; "yes"; "on"] then Value (VBool true)
  else if member lower ["false"; "no"; "off"] then Value (VBool false)
  else if fullmatch_digits v then
    match int max_str_digits v with
    | Some n => Value (VInt n)
    | None => ValueError
    end
  else if fullmatch_decimal v then Value (VFloat v)
  else Value (VStr v).

(** The string is short enough for [int]. *)
Definition within_limit (max_str_digits : nat) (v : string) : Prop :=
  (String.length v <= str_digits_check_threshold)%nat
  \/ max_str_digits = O
  \/ (String.length v <= max_str_digits)%nat.

(** [c * n]: the character [c], [n] times. *)
Fixpoint replicate (n : nat) (c : ascii) : string :=
  match n with
  | O => EmptyString
  | S n => String c (replicate n c)
  end.

End Limited.

(** ** Samples with stat failures *)

Module FaultySamples.
Import Pathlib Fallible.

(** [denied/] before [ok/match.txt]: the first entry of the listing cannot
    be examined. *)
Definition searched : node :=
  Dir None
    [("denied", Dir (Some PermissionError) [("secret.txt", File)]);
     ("ok", Dir None [("match.txt", File)]);
     ("top.txt", File)].

Definition denied_entry : stat_errors :=
  fun p =>
    match p with
    | [nm] => if String.eqb nm "denied" then Some PermissionError else None
    | _ => None
    end.

(** The scanned path itself cannot be examined: an over-long name. *)
Definition overlong : stat_errors :=
  fun p =>
    match p with
    | [] => Some OSError
    | _ => None
    end.

(** A batch in which no scan raises. *)
Definition quiet : list target :=
  [{| holds := Some Samples.guarded; unreadable := no_stat_error;
      shown := "guarded"; depth := -1 |};
   {| holds := Some searched; unreadable := denied_entry;
      shown := "searched"; depth := 2 |};
   {| holds := None; unreadable := no_stat_error;
      shown := "missing"; depth := 0 |}].

End FaultySamples.

(** * Properties *)

(** ** The filesystem tree *)

Module TreeFacts.
Import Text Pathlib.

Lemma listed_located root p t : listed root p t -> located root p t.
Proof.
  induction 1.
  - now apply located_entry.
  - eapply located_below; eauto.
Qed.

Lemma listed_nonempty root p t : listed root p t -> p <> [].
Proof. destruct 1; discriminate. Qed.

Lemma located_nonempty root p t : located root p t -> p <> [].
Proof. destruct 1; discriminate. Qed.

Lemma readable_dir failure entries :
  readable (Dir failure entries) = true ->
  failure = None /\ forall entry, In entry entries -> readable (snd entry) = true.
Proof.
  destruct failure as [e|]; simpl; [discriminate|].
  intros H; split; [reflexivity|].
  now apply forallb_forall.
Qed.

Lemma located_listed root p t :
  readable root = true -> located root p t -> listed root p t.
Proof.
  intros Hr Hl; induction Hl as [failure entries nm t Hin
                                |failure entries nm sub rest t Hin Hl IH].
  - apply readable_dir in Hr as [-> _]. now apply listed_entry.
  - apply readable_dir in Hr as [-> Hall].
    eapply listed_below; [eassumption|].
    apply IH. exact (Hall _ Hin).
Qed.

Lemma readable_tolerated rt n : readable n = true -> tolerated rt n = true.
Proof.
  induction n as [|failure entries IH] using node_ind; [reflexivity|].
  destruct failure as [e|]; simpl; [discriminate|].
  rewrite !forallb_forall. rewrite Forall_forall in IH.
  intros H entry Hin. apply IH; auto.
Qed.

Lemma permission_only_tolerated rt n :
  permission_only n = true -> tolerated rt n = true.
Proof.
  induction n as [|failure entries IH] using node_ind; [reflexivity|].
  destruct failure as [[|]|]; simpl; try discriminate.
  - now destruct rt.
  - rewrite !forallb_forall. rewrite Forall_forall in IH.
    intros H entry Hin. apply IH; auto.
Qed.

Lemma py312_tolerated n : tolerated Py312 n = true.
Proof.
  induction n as [|failure entries IH] using node_ind; [reflexivity|].
  destruct failure as [[|]|]; simpl; try reflexivity.
  rewrite forallb_forall. rewrite Forall_forall in IH. auto.
Qed.

Lemma endswith_spec nm suffix :
  endswith nm suffix = true <-> exists prefix, nm = prefix ++ suffix.
Proof.
  induction nm as [|c nm IH].
  - cbn [endswith]. rewrite orb_false_r, String.eqb_eq. split.
    + intros <-. now exists EmptyString.
    + intros ([|c prefix] & H); [exact H|discriminate].
  - cbn [endswith]. rewrite orb_true_iff, String.eqb_eq, IH. split.
    + intros [<-|[prefix ->]]; [now exists EmptyString|now exists (String c prefix)].
    + intros ([|c' prefix] & H); [now left|right].
      injection H as -> ->. now exists prefix.
Qed.

Lemma glob_match_spec extension nm :
  glob_match extension nm = true <-> has_suffix extension nm.
Proof. apply endswith_spec. Qed.

Lemma listed_is_dir root rel t :
  listed root rel t -> exists entries, root = Dir None entries.
Proof. destruct 1; eauto. Qed.

(** Every directory above a listed entry was itself listed with success. *)
Lemma listed_through (q : path) :
  forall root (rel : path) t,
    listed root (q ++ rel)%list t -> q <> [] -> rel <> [] ->
    exists entries, listed root q (Dir None entries).
Proof.
  induction q as [|nm q IH]; intros root rel t Hl Hq Hrel; [congruence|].
  simpl in Hl.
  inversion Hl as [entries nm' t' Hin Heq|entries nm' sub rest t' Hin Hl' Heq]; subst.
  - destruct q, rel; simpl in *; congruence.
  - destruct q as [|nm2 q].
    + simpl in Hl'. destruct (listed_is_dir Hl') as [entries' ->].
      exists entries'. now apply listed_entry.
    + destruct (IH _ _ _ Hl') as [entries' Hq']; [discriminate|exact Hrel|].
      exists entries'. eapply listed_below; eauto.
Qed.

Lemma iterdir_returned n entries :
  iterdir n = Returned entries <-> n = Dir None entries.
Proof.
  destruct n as [|[e|] entries']; simpl; split; intros H;
    try discriminate; now injection H as ->.
Qed.

Lemma name_child directory nm : name (child directory nm) = nm.
Proof. unfold name, child. now rewrite last_last. Qed.

Lemma name_cons nm rest : rest <> [] -> name (nm :: rest) = name rest.
Proof. unfold name. destruct rest; [congruence|reflexivity]. Qed.

Lemma name_app (directory rel : path) :
  rel <> [] -> name (directory ++ rel)%list = name rel.
Proof.
  intros H. induction directory as [|d directory IH]; [reflexivity|].
  simpl app. rewrite name_cons; [exact IH|].
  destruct directory; simpl; [exact H|discriminate].
Qed.

Lemma child_app directory nm rel :
  (child directory nm ++ rel = directory ++ nm :: rel)%list.
Proof. unfold child. now rewrite <- app_assoc. Qed.

End TreeFacts.

(** ** The three traversals *)

Module ScanFacts.
Import Text Pathlib Recursive TreeFacts.

Lemma direct_matches extension directory (entries : list (string * node)) p :
  In p (map (child directory) (filter (glob_match extension) (map fst entries)))
  <-> exists nm t, p = child directory nm /\ In (nm, t) entries
                   /\ glob_match extension nm = true.
Proof.
  rewrite in_map_iff. split.
  - intros (nm & <- & Hf). apply filter_In in Hf as [Hin Hm].
    apply in_map_iff in Hin as ([nm' t] & Heq & Hin). simpl in Heq; subst nm'.
    now exists nm, t.
  - intros (nm & t & -> & Hin & Hm). exists nm; split; [reflexivity|].
    apply filter_In; split; [|exact Hm].
    apply in_map_iff. now exists (nm, t).
Qed.

Lemma extend_returned (A : Type) (found rest : outcome (list A)) l :
  extend found rest = Returned l ->
  exists a b, found = Returned a /\ rest = Returned b /\ l = (a ++ b)%list.
Proof.
  destruct found as [a|e], rest as [b|e']; simpl; try discriminate.
  intros [= <-]. now exists a, b.
Qed.

Section Traversals.

Variable rt : runtime.
Variable extension : string.

(** *** rglob *)

Lemma rglob_members n :
  forall directory l,
    rglob rt directory n extension = Returned l ->
    forall p, In p l <-> reported extension directory n (fun _ => True) p.
Proof.
  induction n as [|failure entries IH] using node_ind; intros directory l Hr p.
  - simpl in Hr. injection Hr as <-. split; [intros []|].
    intros (rel & t & _ & Hl & _). inversion Hl.
  - destruct failure as [e|].
    + simpl in Hr. assert (l = []) as ->
        by (destruct (absorbs rt e); [now injection Hr|discriminate]).
      split; [intros []|]. intros (rel & t & _ & Hl & _). inversion Hl.
    + cbn [rglob] in Hr. apply extend_returned in Hr as (here & below & Hh & Hb & ->).
      injection Hh as <-.
      assert (Hbelow : In p below <->
                exists nm sub, In (nm, sub) entries
                  /\ reported extension (child directory nm) sub (fun _ => True) p).
      { clear -IH Hb. revert below Hb.
        induction entries as [|[nm0 sub0] entries IHe]; intros below Hb.
        - simpl in Hb. injection Hb as <-. split; [intros []|].
          intros (? & ? & [] & _).
        - cbn [fold_right fst snd] in Hb.
          apply extend_returned in Hb as (a & b & Ha & Hb & ->).
          apply Forall_cons_iff in IH as [IH0 IHrest].
          rewrite in_app_iff, (IH0 _ _ Ha p), (IHe IHrest _ Hb). simpl.
          split.
          + intros [H1|(nm & sub & Hin & H2)]; [exists nm0, sub0|exists nm, sub]; auto.
          + intros (nm & sub & [[= -> ->]|Hin] & Hrep); [left|right]; eauto. }
      rewrite in_app_iff, direct_matches, Hbelow. unfold reported. split.
      * intros [(nm & t & -> & Hin & Hm)|(nm & sub & Hin & rel & t & -> & Hl & Hm & _)].
        -- exists [nm], t. repeat split; auto. now apply listed_entry.
        -- exists (nm :: rel), t. rewrite child_app. repeat split.
           ++ eapply listed_below; eauto.
           ++ rewrite name_cons; [exact Hm|]. eapply listed_nonempty; eauto.
      * intros (rel & t & -> & Hl & Hm & _).
        inversion Hl as [? nm ? Hin|? nm sub rest ? Hin Hl']; subst.
        -- left. now exists nm, t.
        -- right. exists nm, sub. split; [exact Hin|].
           exists rest, t. rewrite child_app. repeat split; auto.
           rewrite name_cons in Hm; [exact Hm|]. eapply listed_nonempty; eauto.
Qed.

Lemma rglob_returns n :
  forall directory, tolerated rt n = true ->
                    exists l, rglob rt directory n extension = Returned l.
Proof.
  induction n as [|failure entries IH] using node_ind; intros directory Ht.
  - now exists [].
  - destruct failure as [e|]; simpl in *.
    + rewrite Ht. now exists [].
    + assert (exists below,
                 fold_right
                   (fun entry rest =>
                      extend (rglob rt (child directory (fst entry)) (snd entry) extension)
                             rest)
                   (Returned []) entries = Returned below) as [below ->].
      { induction entries as [|entry entries IHe]; [now exists []|].
        simpl in Ht. apply andb_prop in Ht as [Ht1 Ht2].
        apply Forall_cons_iff in IH as [IH0 IHrest].
        destruct (IHe IHrest Ht2) as [b Hb].
        destruct (IH0 (child directory (fst entry)) Ht1) as [a Ha].
        simpl. rewrite Ha, Hb. simpl. eauto. }
      simpl. eauto.
Qed.

(** *** collect_files *)

Lemma files_call c st : files (call c st) = files st.
Proof. reflexivity. Qed.

Lemma files_files_extend found st :
  files (files_extend found st) = (files st ++ found)%list.
Proof. reflexivity. Qed.

Lemma collect_files_members n :
  forall current_dir current_depth max_depth st p,
    In p (files (collect_files rt extension current_dir n current_depth max_depth st))
    <-> In p (files st)
        \/ reported extension current_dir n (in_bound current_depth max_depth) p.
Proof.
  induction n as [|failure entries IH] using node_ind;
    intros current_dir current_depth max_depth st p.
  - assert (forall q, ~ reported extension current_dir File
                        (in_bound current_depth max_depth) q) as Hno
      by (intros q (rel & t & _ & Hl & _); inversion Hl).
    simpl. destruct (current_depth <? max_depth); simpl;
      rewrite app_nil_r; split; auto; intros [H|H]; auto; now apply Hno in H.
  - destruct failure as [e|].
    + assert (forall q, ~ reported extension current_dir (Dir (Some e) entries)
                          (in_bound current_depth max_depth) q) as Hno
        by (intros q (rel & t & _ & Hl & _); inversion Hl).
      simpl. destruct (absorbs rt e); [destruct (current_depth <? max_depth)|];
        simpl; rewrite ?app_nil_r; split; auto; intros [H|H]; auto; now apply Hno in H.
    + cbn [collect_files glob].
      set (here := map (child current_dir) (filter (glob_match extension) (map fst entries))).
      set (st1 := files_extend here (call (CallGlob current_dir) st)).
      assert (Hhere : In p (files st1) <->
                In p (files st) \/
                exists nm t, p = child current_dir nm /\ In (nm, t) entries
                             /\ glob_match extension nm = true).
      { unfold st1. rewrite files_files_extend, files_call, in_app_iff.
        unfold here. now rewrite direct_matches. }
      destruct (current_depth <? max_depth) eqn:Hlt.
      * apply Z.ltb_lt in Hlt.
        set (visit := fun (st : scan_state) (entry : string * node) =>
               let subdir := child current_dir (fst entry) in
               let st := call (CallIsDir subdir) st in
               if is_dir (snd entry)
               then collect_files rt extension subdir (snd entry)
                      (current_depth + 1) max_depth st
               else st).
        assert (Hloop : forall st0,
                  In p (files (fold_left visit entries st0)) <->
                  In p (files st0) \/
                  exists nm sub, In (nm, sub) entries
                    /\ reported extension (child current_dir nm) sub
                         (in_bound (current_depth + 1) max_depth) p).
        { clear -IH. induction entries as [|[nm0 sub0] entries IHe]; intros st0.
          - simpl. split; auto. intros [H1|(? & ? & [] & _)]; exact H1.
          - apply Forall_cons_iff in IH as [IH0 IHrest]. simpl in IH0.
            simpl fold_left. rewrite (IHe IHrest).
            assert (Hv : In p (files (visit st0 (nm0, sub0))) <->
                      In p (files st0) \/
                      reported extension (child current_dir nm0) sub0
                        (in_bound (current_depth + 1) max_depth) p).
            { unfold visit. simpl fst; simpl snd. cbv zeta.
              destruct (is_dir sub0) eqn:Hd.
              - now rewrite IH0, files_call.
              - rewrite files_call. destruct sub0; [|discriminate].
                split; auto. intros [H1|(rel & t & _ & Hl & _)]; [exact H1|inversion Hl]. }
            rewrite Hv. simpl. split.
            + intros [[H1|H2]|(nm & sub & Hin & H3)]; auto.
              * right. exists nm0, sub0. auto.
              * right. exists nm, sub. auto.
            + intros [H1|(nm & sub & [[= -> ->]|Hin] & Hrep)]; auto.
              right. exists nm, sub. auto. }
        fold visit. rewrite Hloop, files_call, Hhere. unfold reported, in_bound.
        split.
        -- intros [[H|(nm & t & -> & Hin & Hm)]
                  |(nm & sub & Hin & rel & t & -> & Hl & Hm & Hb)]; auto; right.
           ++ exists [nm], t. repeat split; auto. now apply listed_entry.
           ++ exists (nm :: rel), t. rewrite child_app.
              pose proof (listed_nonempty Hl) as Hne.
              repeat split.
              ** eapply listed_below; eauto.
              ** now rewrite name_cons.
              ** right. unfold nesting_depth in *. simpl List.length.
                 destruct rel; [congruence|]. simpl List.length in *. lia.
        -- intros [H|(rel & t & -> & Hl & Hm & Hb)]; auto.
           inversion Hl as [? nm ? Hin|? nm sub rest ? Hin Hl']; subst.
           ++ left; right. now exists nm, t.
           ++ right. exists nm, sub. split; [exact Hin|].
              pose proof (listed_nonempty Hl') as Hne.
              exists rest, t. rewrite child_app. repeat split; auto.
              ** now rewrite name_cons in Hm.
              ** right. unfold nesting_depth in *. simpl List.length in Hb.
                 destruct rest; [congruence|]. simpl List.length in *. lia.
      * apply Z.ltb_ge in Hlt. rewrite Hhere. unfold reported, in_bound.
        split.
        -- intros [H|(nm & t & -> & Hin & Hm)]; auto. right.
           exists [nm], t. repeat split; auto. now apply listed_entry.
        -- intros [H|(rel & t & -> & Hl & Hm & Hb)]; auto.
           inversion Hl as [? nm ? Hin|? nm sub rest ? Hin Hl']; subst.
           ++ right. now exists nm, t.
           ++ pose proof (listed_nonempty Hl') as Hne. exfalso.
              unfold nesting_depth in Hb. simpl List.length in Hb.
              destruct rest; [congruence|]. simpl List.length in *. lia.
Qed.

End Traversals.

End ScanFacts.

(** ** get_files_by_extension *)

Module ScanSpec.
Import Text Pathlib Recursive TreeFacts ScanFacts.

Lemma listed_depth0 root p t :
  listed root p t -> nesting_depth p <= 0 ->
  exists nm entries, root = Dir None entries /\ p = [nm] /\ In (nm, t) entries.
Proof.
  intros Hl Hd. destruct Hl as [entries nm t Hin|entries nm sub rest t Hin Hl].
  - now exists nm, entries.
  - apply listed_nonempty in Hl. unfold nesting_depth in Hd.
    destruct rest; [congruence|]. simpl List.length in Hd. lia.
Qed.

Lemma glob_members rt root extension l :
  glob rt [] root extension = Returned l ->
  forall p, In p l <->
            (exists t, listed root p t) /\ glob_match extension (name p) = true
            /\ nesting_depth p <= 0.
Proof.
  intros Hg p.
  assert (Hnone : l = [] -> (forall q t, ~ listed root q t) ->
                  In p l <-> (exists t, listed root p t)
                             /\ glob_match extension (name p) = true
                             /\ nesting_depth p <= 0).
  { intros -> Hno. split; [intros []|]. intros [[t Hl] _]. now apply Hno in Hl. }
  destruct root as [|[e|] entries]; simpl in Hg.
  - injection Hg as <-. apply Hnone; [reflexivity|]. intros q t Hl; inversion Hl.
  - apply Hnone; [|intros q t Hl; inversion Hl].
    destruct (absorbs rt e); [now injection Hg|discriminate].
  - injection Hg as <-. rewrite direct_matches. split.
    + intros (nm & t & -> & Hin & Hm). unfold child; simpl. repeat split.
      * exists t. now apply listed_entry.
      * exact Hm.
      * unfold nesting_depth; simpl; lia.
    + intros ([t Hl] & Hm & Hd).
      destruct (listed_depth0 Hl Hd) as (nm & entries' & [= <-] & -> & Hin).
      now exists nm, t.
Qed.

(** Whatever the depth argument, a scan that returns reports exactly the
    entries with a matching name that lie within reach and below
    directories that could be listed. *)
Lemma scan_members rt root extension depth l :
  snd (get_files_by_extension rt root extension depth) = Returned l ->
  forall p, In p l <->
            (exists t, listed root p t) /\ glob_match extension (name p) = true
            /\ within depth p.
Proof.
  unfold get_files_by_extension, within.
  destruct (depth =? 0) eqn:H0; [|destruct (depth =? -1) eqn:H1]; simpl; intros Hs p.
  - apply Z.eqb_eq in H0; subst depth. rewrite (glob_members _ _ _ Hs p).
    simpl Z.max. intuition lia.
  - apply Z.eqb_eq in H1; subst depth. rewrite (rglob_members _ _ _ _ Hs p).
    unfold reported. split.
    + intros (rel & t & -> & Hl & Hm & _). simpl. eauto.
    + intros ([t Hl] & Hm & _). exists p, t. auto.
  - apply Z.eqb_neq in H0, H1. injection Hs as <-.
    rewrite collect_files_members. simpl files. unfold reported, in_bound.
    split.
    + intros [[]|(rel & t & -> & Hl & Hm & Hb)]. simpl.
      repeat split; eauto. right. unfold nesting_depth in *.
      destruct Hb as [->|Hb]; lia.
    + intros ([t Hl] & Hm & [Hd|Hd]); [lia|]. right.
      exists p, t. repeat split; auto.
      apply listed_nonempty in Hl. unfold nesting_depth in *.
      destruct p as [|x [|y p]]; [congruence|now left|right].
      simpl List.length in *. lia.
Qed.

(** The bounded branch always returns; the other two return when every
    failed listing is one that [glob] absorbs. *)
Lemma scan_returns rt root extension depth :
  tolerated rt root = true \/ (depth <> 0 /\ depth <> -1) ->
  exists l, snd (get_files_by_extension rt root extension depth) = Returned l.
Proof.
  unfold get_files_by_extension.
  destruct (depth =? 0) eqn:H0; [|destruct (depth =? -1) eqn:H1]; simpl snd.
  - apply Z.eqb_eq in H0. intros [Ht|[]]; [|congruence].
    destruct root as [|[e|] entries]; simpl in *; eauto.
    rewrite Ht. eauto.
  - apply Z.eqb_eq in H1. intros [Ht|[]]; [|congruence].
    now apply rglob_returns.
  - eauto.
Qed.

End ScanSpec.

(** ** Depth modes *)

(** The statements below are about recognized extensions, for which the
    suffix test [glob_match] is what [fnmatch] computes. *)

Module DepthModes.
Import Text Pathlib Recursive TreeFacts ScanFacts ScanSpec.

Lemma scan_of_readable rt root extension depth :
  readable root = true ->
  exists l,
    snd (get_files_by_extension rt root extension depth) = Returned l
    /\ forall p, In p l <->
                 (exists t, located root p t) /\ has_suffix extension (name p)
                 /\ within depth p.
Proof.
  intros Hr.
  destruct (@scan_returns rt root extension depth) as [l Hl];
    [left; now apply readable_tolerated|].
  exists l; split; [exact Hl|]. intros p.
  rewrite (scan_members _ _ _ _ Hl p), glob_match_spec.
  split; intros ([t Ht] & Hm & Hw); repeat split; auto; exists t.
  - now apply listed_located.
  - now apply located_listed.
Qed.

(** C4. With depth 0 every reported path is a direct child of the scanned
    directory with a matching name, never an entry of a subdirectory; and
    when the scanned directory can be listed, the result holds exactly its
    direct children with a matching name. *)
Theorem depth_zero_direct_children rt root extension :
  known_extension extension = true ->
  (forall l, snd (get_files_by_extension rt root extension 0) = Returned l ->
             forall p, In p l ->
                       exists nm t, p = [nm] /\ located root [nm] t
                                    /\ has_suffix extension nm)
  /\ (forall entries, root = Dir None entries ->
        exists l,
          snd (get_files_by_extension rt root extension 0) = Returned l
          /\ forall p, In p l <->
                       exists nm t, p = [nm] /\ In (nm, t) entries
                                    /\ has_suffix extension nm).
Proof.
  intros _. split.
  - intros l Hl p Hp. apply (scan_members _ _ _ _ Hl) in Hp as ([t Ht] & Hm & Hw).
    destruct Hw as [Hw|Hw]; [discriminate|]. simpl Z.max in Hw.
    destruct (listed_depth0 Ht Hw) as (nm & entries & -> & -> & Hin).
    exists nm, t. repeat split.
    + now apply located_entry.
    + now apply glob_match_spec.
  - intros entries ->. eexists; split; [reflexivity|].
    intros p. rewrite direct_matches. unfold child; simpl.
    split; intros (nm & t & -> & Hin & Hm); exists nm, t; repeat split; auto;
      now apply glob_match_spec.
Qed.

(** C5. With depth -1, on a tree whose directories can all be listed, the
    scan returns every entry of the tree, at whatever nesting depth, whose
    name ends with the extension, and nothing else. *)
Theorem unlimited_depth_membership rt root extension :
  known_extension extension = true ->
  readable root = true ->
  exists l,
    snd (get_files_by_extension rt root extension (-1)) = Returned l
    /\ forall p, In p l <->
                 (exists t, located root p t) /\ has_suffix extension (name p).
Proof.
  intros _ Hr.
  destruct (@scan_of_readable rt root extension (-1) Hr) as (l & Hl & Hiff).
  exists l; split; [exact Hl|]. intros p. rewrite Hiff. unfold within.
  intuition auto.
Qed.


End DepthModes.

(** ** Characters and strings *)

Module TextFacts.
Import Text.

Lemma lower_char_dot c : Ascii.eqb (lower_char c) "." = Ascii.eqb c ".".
Proof. destruct c as [[] [] [] [] [] [] [] []]; reflexivity. Qed.

Lemma lower_char_digit c : isdigit c = true -> lower_char c = c.
Proof. destruct c as [[] [] [] [] [] [] [] []]; vm_compute; congruence. Qed.

Lemma isdigit_not_dot c : isdigit c = true -> Ascii.eqb c "." = false.
Proof. destruct c as [[] [] [] [] [] [] [] []]; vm_compute; congruence. Qed.

Lemma dotless_lower s : dotless (lower s) = dotless s.
Proof.
  induction s as [|c s IH]; [reflexivity|].
  simpl. now rewrite lower_char_dot, IH.
Qed.

Lemma lower_empty s : String.eqb (lower s) EmptyString = String.eqb s EmptyString.
Proof. now destruct s. Qed.

Lemma dotted_suffix_lower s : dotted_suffix (lower s) = dotted_suffix s.
Proof.
  destruct s as [|c s]; [reflexivity|].
  simpl. now rewrite lower_char_dot, lower_empty, dotless_lower.
Qed.

Lemma rfind_dotless s : dotless s = true -> rfind "." s = -1.
Proof.
  induction s as [|c s IH]; [reflexivity|].
  simpl. intros H. apply andb_prop in H as [Hc Hs].
  rewrite (IH Hs). simpl. apply negb_true_iff in Hc. now rewrite Hc.
Qed.

Lemma rfind_last_dot prefix s :
  dotless s = true -> rfind "." (prefix ++ String "." s) = len prefix.
Proof.
  intros Hs. unfold len. induction prefix as [|c prefix IH].
  - simpl. now rewrite (rfind_dotless _ Hs).
  - cbn [append rfind String.length]. rewrite IH.
    replace (0 <=? Z.of_nat (String.length prefix)) with true
      by (symmetry; apply Z.leb_le; lia).
    lia.
Qed.

Lemma take_prefix prefix s : take (String.length prefix) (prefix ++ s) = prefix.
Proof.
  induction prefix as [|c prefix IH]; simpl.
  - now destruct s.
  - now rewrite IH.
Qed.

Lemma length_append a b :
  String.length (a ++ b) = (String.length a + String.length b)%nat.
Proof. induction a as [|c a IH]; simpl; [reflexivity|now rewrite IH]. Qed.

Lemma all_digits_spec s : all_digits s = true <-> digits s.
Proof.
  induction s as [|c s IH]; simpl.
  - split; [constructor|reflexivity].
  - rewrite andb_true_iff, IH. split.
    + intros [Hc Hs]. now constructor.
    + inversion 1; auto.
Qed.

Lemma decimal_tail_spec s :
  decimal_tail s = true <-> exists a b, s = a ++ "." ++ b /\ digits a /\ digits b.
Proof.
  induction s as [|c s IH].
  - split; [discriminate|]. intros ([|? a] & b & H & _); discriminate.
  - cbn [decimal_tail]. destruct (isdigit c) eqn:Hc.
    + rewrite IH. split.
      * intros (a & b & -> & Ha & Hb). exists (String c a), b.
        repeat split; [now constructor|exact Hb].
      * intros ([|c' a] & b & H & Ha & Hb).
        -- simpl in H. injection H as -> _. discriminate.
        -- simpl in H. injection H as -> ->. exists a, b.
           inversion Ha; auto.
    + destruct (Ascii.eqb c ".") eqn:Hdot.
      * rewrite all_digits_spec. apply Ascii.eqb_eq in Hdot as ->. split.
        -- intros Hb. exists EmptyString, s. repeat split; [constructor|exact Hb].
        -- intros ([|c' a] & b & H & Ha & Hb).
           ++ simpl in H. now injection H as ->.
           ++ simpl in H. injection H as <- _. inversion Ha; subst. discriminate.
      * split; [discriminate|]. intros ([|c' a] & b & H & Ha & Hb).
        -- simpl in H. injection H as -> _. discriminate.
        -- simpl in H. injection H as -> _. inversion Ha; congruence.
Qed.

Lemma lower_digits s : digits s -> lower s = s.
Proof.
  induction 1 as [|c t Hc Ht IH]; [reflexivity|].
  simpl. now rewrite (lower_char_digit _ Hc), IH.
Qed.

Lemma lower_append a b : lower (a ++ b) = lower a ++ lower b.
Proof. induction a as [|c a IH]; simpl; [reflexivity|now rewrite IH]. Qed.

End TextFacts.

(** ** infer_type *)

Module InferType.
Import Text Cfp2json TextFacts.

Lemma member3 x a b c :
  member x [a; b; c] = true <-> x = a \/ x = b \/ x = c.
Proof.
  unfold member. cbn [existsb]. rewrite orb_false_r, !orb_true_iff, !String.eqb_eq.
  tauto.
Qed.

Lemma fullmatch_digits_spec v : fullmatch_digits v = true <-> pure_digits v.
Proof.
  unfold pure_digits. destruct v as [|c v].
  - split; [discriminate|]. intros [H _]. congruence.
  - unfold fullmatch_digits. rewrite all_digits_spec. split.
    + intros H; split; [discriminate|exact H].
    + now intros [_ H].
Qed.

Lemma fullmatch_decimal_spec v : fullmatch_decimal v = true <-> digits_dot_digits v.
Proof.
  unfold digits_dot_digits, pure_digits. destruct v as [|c v].
  - split; [discriminate|]. intros ([|? a] & b & H & [Hne _] & _); [congruence|discriminate].
  - unfold fullmatch_decimal. rewrite andb_true_iff, decimal_tail_spec. split.
    + intros (Hc & a & b & -> & Ha & Hb). exists (String c a), b.
      repeat split; [discriminate|now constructor|exact Hb].
    + intros ([|c' a] & b & H & [Hne Ha] & Hb); [congruence|].
      simpl in H. injection H as -> ->. inversion Ha; subst.
      split; [assumption|]. now exists a, b.
Qed.

(** Digits and the dot are left alone by [lower]. *)
Lemma lower_numeric v : pure_digits v \/ digits_dot_digits v -> lower v = v.
Proof.
  intros [[_ H]|(a & b & -> & [_ Ha] & Hb)]; [now apply lower_digits|].
  rewrite !lower_append, (lower_digits Ha), (lower_digits Hb). reflexivity.
Qed.

(** No number is one of the six words. *)
Lemma numeric_not_word v :
  pure_digits v \/ digits_dot_digits v ->
  member (lower v) ["true"; "yes"; "on"] = false
  /\ member (lower v) ["false"; "no"; "off"] = false.
Proof.
  intros H. rewrite (lower_numeric H).
  assert (Hm : fullmatch_digits v = true \/ fullmatch_decimal v = true)
    by (destruct H; [left; now apply fullmatch_digits_spec
                    |right; now apply fullmatch_decimal_spec]).
  split.
  - destruct (member v ["true"; "yes"; "on"]) eqn:Hw; [|reflexivity].
    apply member3 in Hw as [-> | [-> | ->]]; destruct Hm; discriminate.
  - destruct (member v ["false"; "no"; "off"]) eqn:Hw; [|reflexivity].
    apply member3 in Hw as [-> | [-> | ->]]; destruct Hm; discriminate.
Qed.

Lemma truthy_not_falsy s : truthy s -> member s ["false"; "no"; "off"] = false.
Proof. intros [-> | [-> | ->]]; reflexivity. Qed.

Lemma digits_not_decimal v : pure_digits v -> fullmatch_decimal v = false.
Proof.
  intros [_ H]. destruct (fullmatch_decimal v) eqn:Hd; [|reflexivity].
  apply fullmatch_decimal_spec in Hd as (a & b & -> & [_ Ha] & Hb).
  exfalso. clear Hb. induction a as [|c a IH]; simpl in H.
  - inversion H; subst. discriminate.
  - inversion H; subst. inversion Ha; subst. auto.
Qed.

(** Against C8 as stated.  On a value with surrounding whitespace the
    result is not the original string: a padded word is a boolean, a padded
    string comes back stripped although the padded value is none of the
    four special forms; and a value with nothing after its dot is a
    float. *)
Lemma infer_type_not_original :
  infer_type " yes" = VBool true
  /\ infer_type " x" = VStr "x"
  /\ VStr "x" <> VStr " x"
  /\ ~ truthy (lower " x") /\ ~ falsy (lower " x")
  /\ ~ pure_digits " x" /\ ~ digits_dot_digits " x"
  /\ infer_type "1." = VFloat "1.".
Proof.
  repeat split; try discriminate.
  - intros H. apply member3 in H. discriminate.
  - intros H. apply member3 in H. discriminate.
  - intros H. apply fullmatch_digits_spec in H. discriminate.
  - intros H. apply fullmatch_decimal_spec in H. discriminate.
Qed.

End InferType.

(** ** Names and stems of the matches *)

Module Stems.
Import Text Pathlib Recursive TextFacts TreeFacts ScanSpec.

(** Every allow-listed extension, in any letter case, is a dot followed by
    dot-free characters. *)
Lemma known_extension_dotted extension :
  known_extension extension = true -> dotted_suffix extension = true.
Proof.
  unfold known_extension. intros H.
  apply existsb_exists in H as (k & Hin & Hk). apply String.eqb_eq in Hk.
  rewrite <- dotted_suffix_lower, Hk.
  assert (Hall : forallb dotted_suffix KNOWN_EXTENSIONS = true) by reflexivity.
  rewrite forallb_forall in Hall. now apply Hall.
Qed.

Lemma dotted_suffix_inv s :
  dotted_suffix s = true ->
  exists e, s = String "." e /\ e <> EmptyString /\ dotless e = true.
Proof.
  destruct s as [|c e]; [discriminate|]. simpl.
  rewrite !andb_true_iff, negb_true_iff, Ascii.eqb_eq, String.eqb_neq.
  intros [[-> He] Hd]. now exists e.
Qed.

Lemma stem_of_match (f : path) prefix extension :
  dotted_suffix extension = true ->
  name f = prefix ++ extension ->
  (prefix <> EmptyString -> stem f = prefix)
  /\ (prefix = EmptyString -> stem f = name f).
Proof.
  intros Hs Hn. apply dotted_suffix_inv in Hs as (e & -> & He & Hd).
  unfold stem. cbv zeta. rewrite Hn, (rfind_last_dot prefix e Hd). unfold len.
  split.
  - intros Hp.
    assert (Hlp : (0 < String.length prefix)%nat)
      by (destruct prefix; [congruence|simpl; lia]).
    assert (Hle : (0 < String.length e)%nat)
      by (destruct e; [congruence|simpl; lia]).
    rewrite length_append. cbn [String.length].
    replace (0 <? Z.of_nat (String.length prefix)) with true
      by (symmetry; apply Z.ltb_lt; lia).
    replace (Z.of_nat (String.length prefix)
             <? Z.of_nat (String.length prefix + S (String.length e)) - 1) with true
      by (symmetry; apply Z.ltb_lt; lia).
    simpl andb. cbv iota. rewrite Nat2Z.id. apply take_prefix.
  - intros ->. reflexivity.
Qed.

(** C7 (as the code has it).  The stem is computed from the path alone.
    For every match of a scan, the name is some prefix followed by the
    extension; when the prefix is not empty the stem is that prefix, the
    name with the extension removed; a match named by the extension alone
    keeps its whole name as its stem. *)
Theorem stem_removes_extension rt root extension depth l f :
  known_extension extension = true ->
  snd (get_files_by_extension rt root extension depth) = Returned l ->
  In f l ->
  exists prefix,
    name f = prefix ++ extension
    /\ (prefix <> EmptyString -> stem f = prefix)
    /\ (prefix = EmptyString -> stem f = name f).
Proof.
  intros Hk Hl Hf. apply (scan_members _ _ _ _ Hl) in Hf as (_ & Hm & _).
  apply glob_match_spec in Hm as [prefix Hn]. exists prefix.
  split; [exact Hn|]. apply stem_of_match with (extension := extension); [|exact Hn].
  now apply known_extension_dotted.
Qed.

(** Against C7 as stated.  A file named [.txt] matches [*.txt]; its stem
    is the whole name, not the name with the extension removed, and the
    report prints it so. *)
Lemma stem_of_bare_extension :
  snd (get_files_by_extension Py311 Samples.unusual ".txt" 0)
    = Returned [[".txt"]; ["report.txt"]; ["archive.txt"]]
  /\ name [".txt"] = "" ++ ".txt"
  /\ stem [".txt"] = ".txt"
  /\ stem [".txt"] <> ""
  /\ stdout (process_and_print_files Py311 (Some Samples.unusual) "root" ".txt" 0)
     = [MsgHeader "root" ".txt" CurrentDirectoryOnly;
        MsgList "files with extensions" ".txt, report.txt, archive.txt";
        MsgList "file stems" ".txt, report, archive"].
Proof. repeat split; discriminate. Qed.

End Stems.

(** ** Directories that cannot be listed *)

Module AccessErrors.
Import Text Pathlib Recursive TreeFacts ScanFacts ScanSpec.

Lemma report_raises rt root shown extension depth l :
  snd (get_files_by_extension rt root extension depth) = Returned l ->
  raised (report rt root shown extension depth) = None.
Proof.
  unfold report. destruct (get_files_by_extension rt root extension depth) as [cs r].
  simpl. now intros ->.
Qed.

Lemma process_raises rt root shown extension depth l :
  snd (get_files_by_extension rt root extension depth) = Returned l ->
  raised (process_and_print_files rt (Some root) shown extension depth) = None.
Proof.
  intros Hl. unfold process_and_print_files, validate_path, validate_extension.
  destruct (is_dir root); [|reflexivity]. simpl negb. cbv iota.
  destruct (known_extension extension); [|reflexivity].
  simpl. now apply report_raises with l.
Qed.

End AccessErrors.

(** ** Validation of the arguments *)

Module Validation.
Import Text Pathlib Recursive.

(** Against C2 as stated.  For the unknown extension [.xyz] the scan of
    an existing directory makes two filesystem calls before the extension
    is looked at, and on a missing path the unknown-extension line is not
    printed at all. *)
Lemma unknown_extension_touches_filesystem :
  known_extension ".xyz" = false
  /\ process_and_print_files Py311 (Some Samples.nested) "root" ".xyz" 0
     = {| calls := [CallExists []; CallIsDir []];
          stdout := [MsgUnknownExtension ".xyz"]; raised := None |}
  /\ process_and_print_files Py311 None "root" ".xyz" 0
     = {| calls := [CallExists []]; stdout := [MsgMissing "root"]; raised := None |}.
Proof. repeat split. Qed.

End Validation.

(** ** The properties on the sample trees *)

Module OnSamples.
Import Text Pathlib Recursive.

Lemma depth_zero_on_nested :
  (forall l, snd (get_files_by_extension Py311 Samples.nested ".txt" 0) = Returned l ->
             forall p, In p l ->
                       exists nm t, p = [nm] /\ located Samples.nested [nm] t
                                    /\ has_suffix ".txt" nm)
  /\ (forall entries, Samples.nested = Dir None entries ->
        exists l,
          snd (get_files_by_extension Py311 Samples.nested ".txt" 0) = Returned l
          /\ forall p, In p l <->
                       exists nm t, p = [nm] /\ In (nm, t) entries
                                    /\ has_suffix ".txt" nm).
Proof.
  apply DepthModes.depth_zero_direct_children. reflexivity.
Defined.

Lemma unlimited_depth_on_nested :
  exists l,
    snd (get_files_by_extension Py311 Samples.nested ".txt" (-1)) = Returned l
    /\ forall p, In p l <->
                 (exists t, located Samples.nested p t) /\ has_suffix ".txt" (name p).
Proof.
  apply DepthModes.unlimited_depth_membership; reflexivity.
Defined.


Lemma stem_of_report_on_unusual :
  exists prefix,
    name ["report.txt"] = prefix ++ ".txt"
    /\ (prefix <> EmptyString -> stem ["report.txt"] = prefix)
    /\ (prefix = EmptyString -> stem ["report.txt"] = name ["report.txt"]).
Proof.
  apply (@Stems.stem_removes_extension Py311 Samples.unusual ".txt" 0
           [[".txt"]; ["report.txt"]; ["archive.txt"]] ["report.txt"]).
  - reflexivity.
  - reflexivity.
  - simpl. auto.
Defined.

(** The results themselves, as the scans compute them. *)
Example scans_of_nested :
  snd (get_files_by_extension Py311 Samples.nested ".txt" 2)
    = Returned [["top.txt"]; ["a"; "b"; "x.txt"]]
  /\ snd (get_files_by_extension Py311 Samples.nested ".txt" 3)
     = Returned [["top.txt"]; ["a"; "b"; "x.txt"]; ["a"; "b"; "c"; "file.txt"]]
  /\ snd (get_files_by_extension Py311 Samples.nested ".txt" (-1))
     = Returned [["top.txt"]; ["a"; "b"; "x.txt"]; ["a"; "b"; "c"; "file.txt"]]
  /\ snd (get_files_by_extension Py311 Samples.nested ".txt" 0)
     = Returned [["top.txt"]]
  /\ snd (get_files_by_extension Py311 Samples.nested ".TXT" 0)
     = Returned [["TOP.TXT"]].
Proof. repeat split. Qed.

Example scans_of_guarded :
  snd (get_files_by_extension Py311 Samples.guarded ".txt" (-1))
    = Returned [["ok"; "match.txt"]]
  /\ snd (get_files_by_extension Py311 Samples.guarded ".txt" 1)
     = Returned [["ok"; "match.txt"]]
  /\ snd (get_files_by_extension Py312 Samples.faulty ".txt" (-1))
     = Returned [["ok"; "match.txt"]].
Proof. repeat split. Qed.

End OnSamples.

(** ** More on the traversals *)

Module ScanMore.
Import Text Pathlib Recursive TreeMeasures TreeFacts ScanFacts ScanSpec.

(** The state [st] with [found] and [cs] appended. *)
Definition grown (st : scan_state) (found : list path) (cs : list fs_call)
  : scan_state :=
  {| files := (files st ++ found)%list; made := (made st ++ cs)%list |}.

Lemma grown_grown st f1 c1 f2 c2 :
  grown (grown st f1 c1) f2 c2 = grown st (f1 ++ f2) (c1 ++ c2).
Proof. unfold grown; simpl. now rewrite <- !app_assoc. Qed.

Lemma grown_nothing st : st = grown st [] [].
Proof. destruct st; unfold grown; simpl. now rewrite !app_nil_r. Qed.

Lemma call_grown c st : call c st = grown st [] [c].
Proof. unfold call, grown. now rewrite app_nil_r. Qed.

Lemma files_extend_grown found st : files_extend found st = grown st found [].
Proof. unfold files_extend, grown. now rewrite app_nil_r. Qed.

Lemma fold_left_grows (visit : scan_state -> string * node -> scan_state) entries :
  Forall (fun entry => exists found cs, forall st, visit st entry = grown st found cs)
         entries ->
  exists found cs, forall st, fold_left visit entries st = grown st found cs.
Proof.
  induction 1 as [|entry entries (f1 & c1 & H1) _ (f2 & c2 & H2)].
  - exists [], []. intros st. apply grown_nothing.
  - exists (f1 ++ f2)%list, (c1 ++ c2)%list. intros st.
    simpl. now rewrite H1, H2, grown_grown.
Qed.

(** What [collect_files] adds does not depend on what the accumulator
    holds. *)
Lemma collect_files_grows rt extension n :
  forall current_dir current_depth max_depth,
  exists found cs, forall st,
    collect_files rt extension current_dir n current_depth max_depth st
    = grown st found cs.
Proof.
  induction n as [|failure entries IH] using node_ind;
    intros current_dir current_depth max_depth.
  - destruct (current_depth <? max_depth) eqn:Hlt.
    + exists [], [CallGlob current_dir; CallIterdir current_dir]. intros st.
      simpl. rewrite Hlt.
      now rewrite !call_grown, files_extend_grown, !grown_grown.
    + exists [], [CallGlob current_dir]. intros st. simpl. rewrite Hlt.
      now rewrite !call_grown, files_extend_grown, !grown_grown.
  - destruct failure as [e|].
    + simpl. destruct (absorbs rt e); [destruct (current_depth <? max_depth)|].
      * exists [], [CallGlob current_dir; CallIterdir current_dir]. intros st.
        now rewrite !call_grown, files_extend_grown, !grown_grown.
      * exists [], [CallGlob current_dir]. intros st.
        now rewrite !call_grown, files_extend_grown, !grown_grown.
      * exists [], [CallGlob current_dir]. intros st. now rewrite call_grown.
    + cbn [collect_files glob].
      set (here := map (child current_dir)
                     (filter (glob_match extension) (map fst entries))).
      destruct (current_depth <? max_depth).
      * set (visit := fun (st : scan_state) (entry : string * node) =>
               let subdir := child current_dir (fst entry) in
               let st := call (CallIsDir subdir) st in
               if is_dir (snd entry)
               then collect_files rt extension subdir (snd entry)
                      (current_depth + 1) max_depth st
               else st).
        destruct (@fold_left_grows visit entries) as (f & c & Hf).
        { rewrite Forall_forall in IH |- *. intros entry Hin. unfold visit.
          destruct (is_dir (snd entry)).
          - destruct (IH entry Hin (child current_dir (fst entry))
                        (current_depth + 1) max_depth) as (f & c & Hfc).
            exists f, (CallIsDir (child current_dir (fst entry)) :: c).
            intros st. cbv zeta. now rewrite Hfc, call_grown, grown_grown.
          - exists [], [CallIsDir (child current_dir (fst entry))].
            intros st. cbv zeta. apply call_grown. }
        exists (here ++ f)%list,
               (CallGlob current_dir :: CallIterdir current_dir :: c).
        intros st. fold visit. rewrite Hf.
        now rewrite !call_grown, files_extend_grown, !grown_grown.
      * exists here, [CallGlob current_dir]. intros st.
        now rewrite !call_grown, files_extend_grown, !grown_grown.
Qed.

(** X1. [collect_files] keeps what the accumulator already holds, in
    place, and appends its findings; the findings and the filesystem calls
    are those of a run on an empty accumulator. *)
Theorem collect_files_appends rt extension current_dir n current_depth max_depth st :
  let fresh := collect_files rt extension current_dir n current_depth max_depth
                 {| files := []; made := [] |} in
  files (collect_files rt extension current_dir n current_depth max_depth st)
    = (files st ++ files fresh)%list
  /\ made (collect_files rt extension current_dir n current_depth max_depth st)
     = (made st ++ made fresh)%list.
Proof.
  destruct (@collect_files_grows rt extension n current_dir current_depth max_depth)
    as (f & c & H).
  cbv zeta. rewrite !H. simpl. auto.
Qed.

(** The result of the bounded branch starts with the direct matches. *)
Lemma bounded_starts_with_direct rt root extension depth l0 :
  depth <> 0 -> depth <> -1 ->
  glob rt [] root extension = Returned l0 ->
  exists rest,
    snd (get_files_by_extension rt root extension depth) = Returned (l0 ++ rest)%list.
Proof.
  intros H0 H1 Hg. unfold get_files_by_extension.
  apply Z.eqb_neq in H0, H1. rewrite H0, H1. simpl snd.
  destruct root as [|[e|] entries]; cbn [collect_files].
  - rewrite Hg. destruct (0 <? depth); simpl; exists []; now rewrite app_nil_r.
  - rewrite Hg. destruct (0 <? depth); simpl; exists []; now rewrite app_nil_r.
  - rewrite Hg. destruct (0 <? depth).
    + match goal with
      | |- context [fold_left ?v entries _] =>
          destruct (@fold_left_grows v entries) as (f & c & Hf)
      end.
      { apply Forall_forall. intros entry _. destruct (is_dir (snd entry)).
        - destruct (@collect_files_grows rt extension (snd entry)
                      (child [] (fst entry)) (0 + 1) depth) as (f & c & Hfc).
          exists f, (CallIsDir (child [] (fst entry)) :: c). intros st.
          cbv zeta. now rewrite Hfc, call_grown, grown_grown.
        - exists [], [CallIsDir (child [] (fst entry))]. intros st.
          cbv zeta. apply call_grown. }
      rewrite Hf. simpl. eauto.
    + simpl. exists []. now rewrite app_nil_r.
Qed.

(** X2. The matches of the depth-0 scan come first in the result of every
    bounded scan, in the same order. *)
Theorem direct_matches_first rt root extension depth l0 :
  known_extension extension = true ->
  depth <> 0 -> depth <> -1 ->
  snd (get_files_by_extension rt root extension 0) = Returned l0 ->
  exists rest,
    snd (get_files_by_extension rt root extension depth) = Returned (l0 ++ rest)%list.
Proof.
  intros _ H0 H1 Hz. now apply bounded_starts_with_direct.
Qed.

End ScanMore.

(** ** The printed report *)

Module ReportFacts.
Import Text Pathlib Recursive TextFacts TreeFacts ScanFacts ScanSpec Stems.

Lemma dotless_append a b : dotless (a ++ b) = (dotless a && dotless b)%bool.
Proof.
  induction a as [|c a IH]; [reflexivity|].
  simpl. rewrite IH. now rewrite andb_assoc.
Qed.

Lemma append_assoc (a b c : string) : (a ++ b) ++ c = a ++ (b ++ c).
Proof. induction a as [|x a IH]; simpl; [reflexivity|now rewrite IH]. Qed.

(** The joined text ends with its last item. *)
Lemma join_ends_with_last sep items :
  items <> [] -> exists prefix, join sep items = prefix ++ last items EmptyString.
Proof.
  induction items as [|x items IH]; [congruence|]. intros _.
  destruct items as [|y items].
  - now exists EmptyString.
  - destruct IH as [prefix Hp]; [discriminate|].
    exists (x ++ sep ++ prefix).
    change (join sep (x :: y :: items)) with (x ++ sep ++ join sep (y :: items)).
    change (last (x :: y :: items) EmptyString) with (last (y :: items) EmptyString).
    now rewrite Hp, !append_assoc.
Qed.

Lemma dotted_suffix_not_dotless prefix extension :
  dotted_suffix extension = true -> dotless (prefix ++ extension) = false.
Proof.
  intros H. apply dotted_suffix_inv in H as (e & -> & _).
  rewrite dotless_append. simpl. apply andb_false_r.
Qed.

Lemma last_map (A B : Type) (f : A -> B) (l : list A) (a : A) (b : B) :
  l <> [] -> last (map f l) b = f (last l a).
Proof.
  induction l as [|x l IH]; [congruence|]. intros _.
  destruct l as [|y l]; [reflexivity|].
  change (last (map f (x :: y :: l)) b) with (last (map f (y :: l)) b).
  change (last (x :: y :: l) a) with (last (y :: l) a).
  apply IH. discriminate.
Qed.

Lemma last_in (A : Type) (l : list A) (a : A) : l <> [] -> In (last l a) l.
Proof.
  induction l as [|x l IH]; [congruence|]. intros _.
  destruct l as [|y l]; [now left|]. right. apply IH. discriminate.
Qed.

(** X6. In the report of a scan, the line of file names reads "None found"
    exactly when the scan found nothing: no list of matching names joins to
    that text. *)
Theorem names_line_none_found rt root extension depth l label :
  known_extension extension = true ->
  snd (get_files_by_extension rt root extension depth) = Returned l ->
  (print_list label (map name l) = MsgList label "None found" <-> l = []).
Proof.
  intros Hk Hl. split; [|intros ->; reflexivity].
  destruct l as [|f l]; [reflexivity|]. intros Hp. exfalso.
  assert (Hne : f :: l <> []) by discriminate.
  set (g := last (f :: l) []).
  assert (Hg : In g (f :: l)) by now apply last_in.
  apply (scan_members _ _ _ _ Hl) in Hg as (_ & Hm & _).
  apply glob_match_spec in Hm as [prefix Hn].
  destruct (@join_ends_with_last ", " (map name (f :: l))) as [before Hj];
    [discriminate|].
  rewrite (@last_map _ _ name (f :: l) [] EmptyString Hne) in Hj. fold g in Hj.
  rewrite Hn, <- append_assoc in Hj.
  change (print_list label (map name (f :: l)))
    with (MsgList label (join ", " (map name (f :: l)))) in Hp.
  assert (Hjoin : join ", " (map name (f :: l)) = "None found")
    by (injection Hp as Hp; exact Hp).
  rewrite Hjoin in Hj.
  assert (Hd : dotless "None found" = true) by reflexivity.
  rewrite Hj, dotted_suffix_not_dotless in Hd; [discriminate|].
  now apply known_extension_dotted.
Qed.

Lemma length_lower s : String.length (lower s) = String.length s.
Proof. induction s as [|c s IH]; simpl; [reflexivity|now rewrite IH]. Qed.

(** Two suffixes of one string that have the same length are equal. *)
Lemma same_length_suffix a1 :
  forall a2 x y, a1 ++ x = a2 ++ y -> String.length x = String.length y -> x = y.
Proof.
  induction a1 as [|c a1 IH]; intros [|c' a2] x y H Hlen; simpl in H.
  - exact H.
  - subst x. simpl in Hlen. rewrite length_append in Hlen. lia.
  - subst y. simpl in Hlen. rewrite length_append in Hlen. lia.
  - injection H as _ H. eauto.
Qed.

(** X7. The allow-list is tested on the lower-cased extension, the names
    are matched against the extension as given: a scan for an extension
    that is not in lower case never reports a name that ends with the
    lower-case extension. *)
Theorem uppercase_extension_misses_lowercase rt root extension depth l :
  known_extension extension = true ->
  extension <> lower extension ->
  snd (get_files_by_extension rt root extension depth) = Returned l ->
  forall p, In p l -> ~ has_suffix (lower extension) (name p).
Proof.
  intros _ Hcase Hl p Hp [prefix' Hlow].
  apply (scan_members _ _ _ _ Hl) in Hp as (_ & Hm & _).
  apply glob_match_spec in Hm as [prefix Hn]. rewrite Hn in Hlow.
  apply Hcase. eapply same_length_suffix; [eassumption|].
  now rewrite length_lower.
Qed.

End ReportFacts.

(** ** The batch driver *)

Module BatchFacts.
Import Text Pathlib Recursive Batch TreeFacts ScanSpec AccessErrors.

(** The scan of one combination of the product. *)
Definition scan_of (rt : runtime) (combination : target * string) : run :=
  process_and_print_files rt (holds (fst combination)) (shown (fst combination))
    (snd combination) (depth (fst combination)).

Lemma scan_directories_unfold rt pairs extensions :
  scan_directories rt pairs extensions
  = fold_right (fun c rest => and_then (scan_of rt c) rest) finished
      (list_prod pairs extensions).
Proof. reflexivity. Qed.

Lemma raising_run_stops rt before c later e :
  (forall b, In b before -> raised (scan_of rt b) = None) ->
  raised (scan_of rt c) = Some e ->
  let r := fold_right (fun c rest => and_then (scan_of rt c) rest) finished
             (before ++ c :: later) in
  raised r = Some e
  /\ stdout r = (flat_map (fun b => stdout (scan_of rt b)) before
                 ++ stdout (scan_of rt c))%list.
Proof.
  intros Hq Hc. induction before as [|b before IH]; cbv zeta.
  - cbn [app fold_right flat_map].
    set (rest := fold_right _ finished later).
    unfold and_then. rewrite Hc. auto.
  - destruct IH as (Hr & Hs); [intros b' Hin; apply Hq; now right|].
    cbv zeta in *. cbn [app fold_right flat_map].
    set (rest := fold_right _ finished (before ++ c :: later)) in *.
    unfold and_then. rewrite (Hq b (or_introl eq_refl)). cbn [raised stdout].
    rewrite Hr, Hs. now rewrite app_assoc.
Qed.

(** X10. An exception ends the batch: when the scan of one combination
    raises and none before it did, the batch raises that exception and
    prints the lines of the combinations before it and nothing more; the
    combinations after it are not scanned. *)
Theorem batch_stops_at_exception rt pairs extensions before c later e :
  list_prod pairs extensions = (before ++ c :: later)%list ->
  (forall b, In b before ->
     raised (process_and_print_files rt (holds (fst b)) (shown (fst b)) (snd b)
               (depth (fst b))) = None) ->
  raised (process_and_print_files rt (holds (fst c)) (shown (fst c)) (snd c)
            (depth (fst c))) = Some e ->
  raised (scan_directories rt pairs extensions) = Some e
  /\ stdout (scan_directories rt pairs extensions)
     = flat_map
         (fun b => stdout (process_and_print_files rt (holds (fst b)) (shown (fst b))
                             (snd b) (depth (fst b))))
         before.
Proof.
  intros Hp Hq Hc. rewrite scan_directories_unfold, Hp.
  destruct (@raising_run_stops rt before c later e Hq Hc) as (Hr & Hs).
  split; [exact Hr|]. rewrite Hs.
  assert (Hnone : stdout (scan_of rt c) = []).
  { unfold scan_of in *. unfold process_and_print_files, validate_path,
      validate_extension, report in *.
    destruct (holds (fst c)) as [n|]; [|discriminate].
    destruct (is_dir n); [|discriminate]. cbn [negb] in *. cbv iota in *.
    destruct (known_extension (snd c)); [|discriminate]. cbn [negb] in *.
    cbv iota in *.
    destruct (get_files_by_extension rt n (snd c) (depth (fst c))) as [cs [l|e']];
      [discriminate|reflexivity]. }
  rewrite Hnone. apply app_nil_r.
Qed.

End BatchFacts.

(** ** The flat and the simple script *)

Module Variants.
Import Text Pathlib TreeFacts ScanSpec.

(** A run of the recursive script, read as a run of the flat one. *)
Definition flattened (r : Recursive.run) : Flat.run :=
  {| Flat.calls := Recursive.calls r;
     Flat.stdout := map Flat.without_depth (Recursive.stdout r);
     Flat.raised := Recursive.raised r |}.

Lemma print_list_without_depth label items :
  Flat.without_depth (Recursive.print_list label items) = Flat.print_list label items.
Proof. now destruct items. Qed.

(** The validated part of the two scripts. *)
Lemma flat_body_flattened rt n shown extension :
  Flat.validate_extension (Flat.report rt) n shown extension
  = flattened (Recursive.validate_extension (Recursive.report rt) n shown extension 0).
Proof.
  unfold Flat.validate_extension, Recursive.validate_extension.
  change (Flat.known_extension extension) with (Recursive.known_extension extension).
  destruct (Recursive.known_extension extension); [|reflexivity].
  cbn [negb]. cbv iota.
  unfold Flat.report, Recursive.report, Flat.get_files_by_extension,
    Recursive.get_files_by_extension. cbn [Z.eqb].
  destruct (glob rt [] n extension) as [l|e]; [|reflexivity].
  unfold flattened. simpl. now rewrite !print_list_without_depth.
Qed.

Lemma flattened_after cs r :
  flattened (Recursive.after cs r) = Flat.after cs (flattened r).
Proof. reflexivity. Qed.

(** X12. The flat script's scan of a directory is the recursive script's
    scan with depth 0: the same filesystem calls, the same exception if
    any, and the same lines but for the header, which carries no depth
    description. *)
Theorem flat_is_depth_zero rt directory shown extension :
  Flat.process_and_print_files rt directory shown extension
  = flattened (Recursive.process_and_print_files rt directory shown extension 0).
Proof.
  unfold Flat.process_and_print_files, Recursive.process_and_print_files,
    Flat.validate_path, Recursive.validate_path.
  destruct directory as [n|]; [|reflexivity].
  destruct (is_dir n); [|reflexivity]. cbn [negb]. cbv iota.
  now rewrite flattened_after, flat_body_flattened.
Qed.

Lemma flattened_and_then first next :
  flattened (Batch.and_then first next)
  = Flat.and_then (flattened first) (flattened next).
Proof.
  unfold Batch.and_then, Flat.and_then, flattened. simpl.
  destruct (Recursive.raised first) eqn:Hr; simpl; [now rewrite Hr|].
  now rewrite map_app.
Qed.

(** X13. The flat batch is the recursive batch with every depth set to 0,
    read without the depth descriptions. *)
Theorem flat_batch_is_depth_zero rt directories extensions :
  Flat.scan_directories rt directories extensions
  = flattened
      (Batch.scan_directories rt
         (map (fun d => {| Batch.holds := fst d; Batch.shown := snd d;
                           Batch.depth := 0 |})
              directories)
         extensions).
Proof.
  assert (Hscan : forall directory shown x,
            Flat.process_and_print_files rt directory shown x
            = flattened (Recursive.process_and_print_files rt directory shown x 0)).
  { intros directory shown x.
    unfold Flat.process_and_print_files, Recursive.process_and_print_files,
      Flat.validate_path, Recursive.validate_path.
    destruct directory as [n|]; [|reflexivity].
    destruct (is_dir n); [|reflexivity]. cbn [negb]. cbv iota.
    now rewrite flattened_after, flat_body_flattened. }
  unfold Flat.scan_directories, Batch.scan_directories.
  induction directories as [|d directories IH]; [reflexivity|].
  cbn [map list_prod]. rewrite !fold_right_app, IH. clear IH.
  set (rest := fold_right _ Batch.finished
                 (list_prod (map _ directories) extensions)).
  generalize rest. clear rest. intros rest.
  induction extensions as [|x extensions IH]; [reflexivity|].
  cbn [map fold_right fst snd Batch.holds Batch.shown Batch.depth].
  now rewrite IH, flattened_and_then, Hscan.
Qed.

(** The text after the label in the list lines of a report. *)
Definition flat_bodies (out : list Flat.output) : list string :=
  flat_map (fun o => match o with Flat.MsgList _ body => [body] | _ => [] end) out.

Definition simple_bodies (out : list Simple.output) : list string :=
  flat_map (fun o => match o with Simple.MsgList _ body => [body] | _ => [] end) out.

Lemma flat_print_list_body label items :
  exists body, Flat.print_list label items = Flat.MsgList label body
               /\ Simple.print_list label items = Simple.MsgList label body.
Proof. destruct items; eexists; split; reflexivity. Qed.

(** X14. On a directory and with a recognized extension, the simple script
    and the flat script raise the same exception if any, and print the same
    names and the same stems. *)
Theorem simple_agrees_with_flat rt n shown extension :
  is_dir n = true ->
  Flat.known_extension extension = true ->
  Simple.raised (Simple.script rt (Some n) shown extension)
  = Flat.raised (Flat.process_and_print_files rt (Some n) shown extension)
  /\ simple_bodies (Simple.stdout (Simple.script rt (Some n) shown extension))
     = flat_bodies
         (Flat.stdout (Flat.process_and_print_files rt (Some n) shown extension)).
Proof.
  intros Hd Hk.
  unfold Flat.process_and_print_files, Flat.validate_path, Flat.validate_extension,
    Simple.script, Simple.glob_at, Flat.report, Flat.get_files_by_extension.
  rewrite Hd, Hk. cbn [negb]. cbv iota zeta.
  destruct (glob rt [] n extension) as [l|e]; [|split; reflexivity].
  split; [reflexivity|]. cbn [Flat.after Flat.stdout Simple.stdout].
  destruct (flat_print_list_body "files with extensions" (map name l)) as (b1 & F1 & _).
  destruct (flat_print_list_body "Files with extension" (map name l)) as (b1' & F1' & S1).
  destruct (flat_print_list_body "file stems" (map stem l)) as (b2 & F2 & _).
  destruct (flat_print_list_body "File stems" (map stem l)) as (b2' & F2' & S2).
  rewrite F1, F2, S1, S2. simpl.
  assert (b1 = b1') as -> by (destruct (map name l); simpl in *; congruence).
  assert (b2 = b2') as -> by (destruct (map stem l); simpl in *; congruence).
  reflexivity.
Qed.

End Variants.

(** ** More on infer_type *)

Module InferTypeFacts.
Import Text Cfp2json TreeMeasures TextFacts InferType.

Lemma lstrip_blank a s : blank a = true -> lstrip (a ++ s) = lstrip s.
Proof.
  induction a as [|c a IH]; [reflexivity|]. simpl.
  intros H. apply andb_prop in H as [Hc Ha]. rewrite Hc. auto.
Qed.

Lemma rstrip_of_blank b : blank b = true -> rstrip b = EmptyString.
Proof.
  induction b as [|c b IH]; [reflexivity|]. simpl.
  intros H. apply andb_prop in H as [Hc Hb]. now rewrite (IH Hb), Hc.
Qed.

Lemma rstrip_blank s b : blank b = true -> rstrip (s ++ b) = rstrip s.
Proof.
  intros Hb. induction s as [|c s IH].
  - simpl. now apply rstrip_of_blank.
  - simpl. now rewrite IH.
Qed.

Lemma lstrip_of_blank b : blank b = true -> lstrip b = EmptyString.
Proof.
  induction b as [|c b IH]; [reflexivity|]. simpl.
  intros H. apply andb_prop in H as [Hc Hb]. rewrite Hc. auto.
Qed.

Lemma strip_blank_right s b : blank b = true -> strip (s ++ b) = strip s.
Proof.
  intros Hb. unfold strip. induction s as [|c s IH].
  - simpl. now rewrite (lstrip_of_blank _ Hb).
  - simpl. destruct (isspace c); [exact IH|].
    change (String c (s ++ b)) with (String c s ++ b). now apply rstrip_blank.
Qed.

(** Whitespace around a value is dropped by [strip]. *)
Lemma strip_padding a s b :
  blank a = true -> blank b = true -> strip (a ++ s ++ b) = strip s.
Proof.
  intros Ha Hb. unfold strip at 1. rewrite (@lstrip_blank a (s ++ b) Ha).
  now apply strip_blank_right.
Qed.

(** X16. Whitespace around a value does not change what it converts to. *)
Theorem infer_type_ignores_padding a val b :
  blank a = true -> blank b = true ->
  infer_type (a ++ val ++ b) = infer_type val.
Proof.
  intros Ha Hb. unfold infer_type. now rewrite (@strip_padding a val b Ha Hb).
Qed.

(** A string that does not begin with whitespace. *)
Definition starts_clean (s : string) : bool :=
  match s with
  | EmptyString => true
  | String c _ => negb (isspace c)
  end.

Lemma lstrip_starts_clean s : starts_clean (lstrip s) = true.
Proof.
  induction s as [|c s IH]; [reflexivity|]. simpl.
  destruct (isspace c) eqn:Hc; [exact IH|]. simpl. now rewrite Hc.
Qed.

Lemma lstrip_clean s : starts_clean s = true -> lstrip s = s.
Proof.
  destruct s as [|c s]; [reflexivity|]. simpl.
  intros H. apply negb_true_iff in H. now rewrite H.
Qed.

Lemma rstrip_starts_clean s : starts_clean s = true -> starts_clean (rstrip s) = true.
Proof.
  destruct s as [|c s]; [reflexivity|]. simpl. intros H.
  destruct (rstrip s); [|exact H].
  apply negb_true_iff in H. rewrite H. simpl. now rewrite H.
Qed.

Lemma rstrip_rstrip s : rstrip (rstrip s) = rstrip s.
Proof.
  induction s as [|c s IH]; [reflexivity|]. simpl.
  destruct (rstrip s) as [|c' t] eqn:Hr.
  - destruct (isspace c) eqn:Hc; [reflexivity|]. simpl. now rewrite Hc.
  - change (rstrip (String c (String c' t)))
      with (match rstrip (String c' t) with
            | EmptyString => if isspace c then EmptyString else String c EmptyString
            | t' => String c t'
            end).
    now rewrite IH.
Qed.

Lemma strip_strip s : strip (strip s) = strip s.
Proof.
  unfold strip. rewrite lstrip_clean.
  - apply rstrip_rstrip.
  - apply rstrip_starts_clean, lstrip_starts_clean.
Qed.

Lemma infer_type_string val s :
  infer_type val = VStr s -> s = strip val.
Proof.
  unfold infer_type.
  destruct (member (lower (strip val)) ["true"; "yes"; "on"]); [discriminate|].
  destruct (member (lower (strip val)) ["false"; "no"; "off"]); [discriminate|].
  destruct (fullmatch_digits (strip val)); [discriminate|].
  destruct (fullmatch_decimal (strip val)); [discriminate|].
  now intros [= <-].
Qed.

(** X17. A string that comes out of the conversion is stripped, and
    converting it again gives the same string back. *)
Theorem string_result_is_stable val s :
  infer_type val = VStr s ->
  strip s = s /\ infer_type s = VStr s.
Proof.
  intros H. pose proof (@infer_type_string val s H) as ->.
  split; [apply strip_strip|].
  assert (Hsame : infer_type (strip val) = infer_type val)
    by (unfold infer_type; now rewrite strip_strip).
  now rewrite Hsame.
Qed.

Lemma digit_value_bounds c : isdigit c = true -> 0 <= digit_value c <= 9.
Proof.
  unfold isdigit, between, digit_value. intros H.
  apply andb_prop in H as [H1 H2].
  apply Nat.leb_le in H1, H2. lia.
Qed.

Lemma int_from_nonnegative s :
  digits s -> forall acc, 0 <= acc -> acc <= int_from acc s.
Proof.
  induction 1 as [|c t Hc Ht IH]; intros acc Hacc; cbn [int_from]; [lia|].
  pose proof (digit_value_bounds _ Hc).
  specialize (IH (10 * acc + digit_value c)). lia.
Qed.

Lemma infer_type_integer val n :
  infer_type val = VInt n -> pure_digits (strip val) /\ n = int (strip val).
Proof.
  unfold infer_type.
  destruct (member (lower (strip val)) ["true"; "yes"; "on"]); [discriminate|].
  destruct (member (lower (strip val)) ["false"; "no"; "off"]); [discriminate|].
  destruct (fullmatch_digits (strip val)) eqn:Hd.
  - intros [= <-]. split; [now apply fullmatch_digits_spec|reflexivity].
  - destruct (fullmatch_decimal (strip val)); discriminate.
Qed.

(** X18. An integer comes only from a value that is all digits once
    stripped, and it is never negative: a value with a sign stays a
    string. *)
Theorem integer_result_is_unsigned val n :
  infer_type val = VInt n ->
  pure_digits (strip val) /\ 0 <= n.
Proof.
  intros H. apply infer_type_integer in H as [Hd ->]. split; [exact Hd|].
  destruct Hd as [_ Hd]. unfold int. now apply int_from_nonnegative.
Qed.

Lemma digit_not_space c : isdigit c = true -> isspace c = false.
Proof. destruct c as [[] [] [] [] [] [] [] []]; vm_compute; congruence. Qed.

Lemma rstrip_digits s : digits s -> rstrip s = s.
Proof.
  induction 1 as [|c t Hc Ht IH]; [reflexivity|]. simpl. rewrite IH.
  destruct t; [now rewrite (digit_not_space _ Hc)|reflexivity].
Qed.

Lemma strip_digits s : digits s -> strip s = s.
Proof.
  intros H. unfold strip. rewrite lstrip_clean; [now apply rstrip_digits|].
  destruct H as [|c t Hc _]; [reflexivity|]. simpl.
  now rewrite (digit_not_space _ Hc).
Qed.

Lemma infer_type_of_digits v : pure_digits v -> infer_type v = VInt (int v).
Proof.
  intros H. unfold infer_type. rewrite (strip_digits (proj2 H)).
  destruct (numeric_not_word (or_introl H)) as [-> ->].
  apply fullmatch_digits_spec in H. now rewrite H.
Qed.

Lemma isspace_lower_char c : isspace (lower_char c) = isspace c.
Proof. destruct c as [[] [] [] [] [] [] [] []]; reflexivity. Qed.

Lemma lower_lstrip s : lower (lstrip s) = lstrip (lower s).
Proof.
  induction s as [|c s IH]; [reflexivity|]. simpl.
  rewrite isspace_lower_char. now destruct (isspace c).
Qed.

Lemma lower_rstrip s : lower (rstrip s) = rstrip (lower s).
Proof.
  induction s as [|c s IH]; [reflexivity|]. simpl. rewrite <- IH.
  destruct (rstrip s); simpl.
  - rewrite isspace_lower_char. now destruct (isspace c).
  - reflexivity.
Qed.

Lemma lower_strip s : lower (strip s) = strip (lower s).
Proof. unfold strip. now rewrite lower_rstrip, lower_lstrip. Qed.

Lemma infer_type_boolean val x :
  infer_type val = VBool x <->
  (if x then member (lower (strip val)) ["true"; "yes"; "on"] = true
   else member (lower (strip val)) ["true"; "yes"; "on"] = false
        /\ member (lower (strip val)) ["false"; "no"; "off"] = true).
Proof.
  unfold infer_type.
  destruct (member (lower (strip val)) ["true"; "yes"; "on"]).
  - destruct x; split; try reflexivity; try discriminate. intros []; discriminate.
  - destruct (member (lower (strip val)) ["false"; "no"; "off"]).
    + destruct x; split; try discriminate; auto.
    + destruct (fullmatch_digits (strip val)), (fullmatch_decimal (strip val));
        destruct x; split; try discriminate; intros []; discriminate.
Qed.

(** X20. The letter case of a value does not matter for the booleans: two
    values that differ only in letter case are both [True], both [False],
    or neither is a boolean. *)
Theorem boolean_ignores_case val val' x :
  lower val = lower val' ->
  (infer_type val = VBool x <-> infer_type val' = VBool x).
Proof.
  intros H. rewrite !infer_type_boolean, !lower_strip, H. reflexivity.
Qed.

End InferTypeFacts.

(** ** One entry per path *)

Module NoRepeats.
Import Text Pathlib Recursive TreeMeasures TreeFacts ScanFacts ScanSpec ScanMore.

Lemma distinct_NoDup l : distinct l = true -> NoDup l.
Proof.
  induction l as [|x l IH]; [constructor|]. simpl.
  intros H. apply andb_prop in H as [Hx Hl]. constructor; [|auto].
  intros Hin. apply negb_true_iff in Hx.
  assert (existsb (String.eqb x) l = true); [|congruence].
  apply existsb_exists. exists x. split; [exact Hin|apply String.eqb_refl].
Qed.

Lemma child_injective directory a b : child directory a = child directory b -> a = b.
Proof. unfold child. intros H. apply app_inv_head in H. now injection H. Qed.

Lemma direct_NoDup extension directory (entries : list (string * node)) :
  distinct (map fst entries) = true ->
  NoDup (map (child directory) (filter (glob_match extension) (map fst entries))).
Proof.
  intros H.
  assert (Hnd : NoDup (filter (glob_match extension) (map fst entries)))
    by now apply NoDup_filter, distinct_NoDup.
  induction Hnd as [|x l Hx Hl IH]; [constructor|]. simpl. constructor; [|exact IH].
  intros Hin. apply in_map_iff in Hin as (y & Hy & Hin).
  apply child_injective in Hy. now subst y.
Qed.

(** The paths that lie strictly below the entry [nm] of [directory]. *)
Definition under (directory : path) (nm : string) (p : path) : Prop :=
  exists rel, rel <> [] /\ p = (child directory nm ++ rel)%list.

Lemma under_not_direct directory nm nm' : ~ under directory nm (child directory nm').
Proof.
  intros (rel & Hne & H). unfold child in H. rewrite <- app_assoc in H.
  apply app_inv_head in H. simpl in H. injection H as _ H. now subst rel.
Qed.

Lemma under_same directory nm nm' p :
  under directory nm p -> under directory nm' p -> nm = nm'.
Proof.
  intros (r1 & _ & ->) (r2 & _ & H). unfold child in H.
  rewrite <- !app_assoc in H. apply app_inv_head in H. simpl in H. now injection H.
Qed.

Lemma NoDup_app_disjoint (A : Type) (a b : list A) :
  NoDup a -> NoDup b -> (forall x, In x a -> ~ In x b) -> NoDup (a ++ b).
Proof.
  induction a as [|x a IH]; intros Ha Hb Hd; [exact Hb|].
  inversion Ha as [|? ? Hx Ha']; subst. simpl. constructor.
  - rewrite in_app_iff. intros [H|H]; [auto|]. apply (Hd x); [now left|exact H].
  - apply IH; auto. intros y Hy. apply Hd. now right.
Qed.

Lemma unique_names_dir failure entries :
  unique_names (Dir failure entries) = true ->
  distinct (map fst entries) = true
  /\ forall entry, In entry entries -> unique_names (snd entry) = true.
Proof.
  simpl. intros H. apply andb_prop in H as [Hd Ha]. split; [exact Hd|].
  now apply forallb_forall.
Qed.

Lemma reported_under extension directory nm sub ok p :
  reported extension (child directory nm) sub ok p -> under directory nm p.
Proof.
  intros (rel & t & -> & Hl & _). exists rel. split; [|reflexivity].
  eapply listed_nonempty; eauto.
Qed.

Section Traversals.

Variable rt : runtime.
Variable extension : string.

Lemma collect_files_NoDup n :
  unique_names n = true ->
  forall current_dir current_depth max_depth,
    NoDup (files (collect_files rt extension current_dir n current_depth max_depth
                    {| files := []; made := [] |})).
Proof.
  induction n as [|failure entries IH] using node_ind;
    intros Hu current_dir current_depth max_depth.
  - simpl. destruct (current_depth <? max_depth); simpl; constructor.
  - destruct failure as [e|].
    + simpl. destruct (absorbs rt e); [destruct (current_depth <? max_depth)|];
        simpl; constructor.
    + apply unique_names_dir in Hu as [Hd Hsub].
      cbn [collect_files glob].
      set (here := map (child current_dir)
                     (filter (glob_match extension) (map fst entries))).
      assert (Hhere : NoDup here) by now apply direct_NoDup.
      destruct (current_depth <? max_depth); [|simpl; exact Hhere].
      set (visit := fun (st : scan_state) (entry : string * node) =>
             let subdir := child current_dir (fst entry) in
             let st := call (CallIsDir subdir) st in
             if is_dir (snd entry)
             then collect_files rt extension subdir (snd entry)
                    (current_depth + 1) max_depth st
             else st).
      assert (Hloop : forall st0,
                NoDup (files st0) ->
                (forall p nm, In p (files st0) -> In nm (map fst entries) ->
                              ~ under current_dir nm p) ->
                NoDup (files (fold_left visit entries st0))).
      { clear Hhere here. revert Hd Hsub IH.
        induction entries as [|[nm0 sub0] entries IHe];
          intros Hd Hsub IH st0 Hst Hfree; [exact Hst|].
        apply Forall_cons_iff in IH as [IH0 IHrest]. simpl in IH0.
        simpl in Hd. apply andb_prop in Hd as [Hnm Hd].
        simpl fold_left.
        assert (Hv : exists found,
                   files (visit st0 (nm0, sub0)) = (files st0 ++ found)%list
                   /\ NoDup found
                   /\ forall p, In p found -> under current_dir nm0 p).
        { unfold visit. simpl fst; simpl snd. cbv zeta.
          destruct (is_dir sub0).
          - destruct (@collect_files_grows rt extension sub0 (child current_dir nm0)
                        (current_depth + 1) max_depth) as (found & cs & Hg).
            pose proof (Hg {| files := []; made := [] |}) as Hfresh.
            rewrite Hg. exists found. split; [reflexivity|].
            assert (Hfound : files (collect_files rt extension (child current_dir nm0)
                                      sub0 (current_depth + 1) max_depth
                                      {| files := []; made := [] |}) = found)
              by now rewrite Hfresh.
            rewrite <- Hfound. split.
            + apply IH0. apply (Hsub (nm0, sub0)). now left.
            + intros p Hp.
              apply (collect_files_members rt extension) in Hp as [[]|Hp].
              eapply reported_under; eauto.
          - exists []. rewrite app_nil_r. repeat split; [constructor|intros p []]. }
        destruct Hv as (found & Hf & Hnd & Hunder).
        apply IHe; auto.
        - intros entry Hin. apply Hsub. now right.
        - rewrite Hf. apply NoDup_app_disjoint; auto.
          intros p Hp Hp'. apply (Hfree p nm0 Hp); [now left|auto].
        - intros p nm Hp Hnm'. rewrite Hf in Hp. apply in_app_iff in Hp as [Hp|Hp].
          + apply Hfree; [exact Hp|now right].
          + intros Hu'. pose proof (under_same (Hunder p Hp) Hu') as <-.
            apply negb_true_iff in Hnm.
            assert (existsb (String.eqb nm0) (map fst entries) = true); [|congruence].
            apply existsb_exists. exists nm0. split; [exact Hnm'|apply String.eqb_refl]. }
      apply Hloop.
      * simpl. exact Hhere.
      * simpl. intros p nm Hp _. unfold here in Hp.
        apply in_map_iff in Hp as (nm' & <- & _). apply under_not_direct.
Qed.

Lemma rglob_NoDup n :
  unique_names n = true ->
  forall directory l, rglob rt directory n extension = Returned l -> NoDup l.
Proof.
  induction n as [|failure entries IH] using node_ind; intros Hu directory l Hr.
  - simpl in Hr. injection Hr as <-. constructor.
  - destruct failure as [e|].
    + simpl in Hr. destruct (absorbs rt e); [|discriminate].
      injection Hr as <-. constructor.
    + apply unique_names_dir in Hu as [Hd Hsub].
      cbn [rglob] in Hr. apply extend_returned in Hr as (here & below & Hh & Hb & ->).
      injection Hh as <-.
      assert (Hbelow : NoDup below
                       /\ forall p, In p below ->
                                    exists nm, In nm (map fst entries)
                                               /\ under directory nm p).
      { clear -IH Hb Hd Hsub. revert below Hb Hd Hsub IH.
        induction entries as [|[nm0 sub0] entries IHe]; intros below Hb Hd Hsub IH.
        - simpl in Hb. injection Hb as <-. split; [constructor|intros p []].
        - cbn [fold_right fst snd] in Hb.
          apply extend_returned in Hb as (a & b & Ha & Hb & ->).
          apply Forall_cons_iff in IH as [IH0 IHrest]. simpl in IH0.
          simpl in Hd. apply andb_prop in Hd as [Hnm Hd].
          destruct (IHe b Hb Hd) as [Hndb Hub]; auto.
          { intros entry Hin. apply Hsub. now right. }
          assert (Hua : forall p, In p a -> under directory nm0 p).
          { intros p Hp. apply (rglob_members _ _ _ _ Ha p) in Hp.
            eapply reported_under; eauto. }
          split.
          + apply NoDup_app_disjoint; auto.
            * eapply IH0; eauto. apply (Hsub (nm0, sub0)). now left.
            * intros p Hp Hp'. destruct (Hub p Hp') as (nm & Hin & Hu').
              pose proof (under_same (Hua p Hp) Hu') as <-.
              apply negb_true_iff in Hnm.
              assert (existsb (String.eqb nm0) (map fst entries) = true);
                [|congruence].
              apply existsb_exists. exists nm0.
              split; [exact Hin|apply String.eqb_refl].
          + intros p Hp. apply in_app_iff in Hp as [Hp|Hp].
            * exists nm0. split; [now left|auto].
            * destruct (Hub p Hp) as (nm & Hin & Hu'). exists nm.
              split; [now right|exact Hu']. }
      destruct Hbelow as [Hnd Hunder].
      apply NoDup_app_disjoint; auto.
      * now apply direct_NoDup.
      * intros p Hp Hp'. apply in_map_iff in Hp as (nm' & <- & _).
        destruct (Hunder _ Hp') as (nm & _ & Hu'). now apply under_not_direct in Hu'.
Qed.

End Traversals.

(** X21. When no directory lists two entries under one name, a scan
    reports every path at most once, whatever the depth argument. *)
Theorem one_entry_per_path rt root extension depth l :
  known_extension extension = true ->
  unique_names root = true ->
  snd (get_files_by_extension rt root extension depth) = Returned l ->
  NoDup l.
Proof.
  intros _ Hu. unfold get_files_by_extension.
  destruct (depth =? 0); [|destruct (depth =? -1)]; simpl snd.
  - destruct root as [|[e|] entries]; simpl.
    + intros [= <-]. constructor.
    + destruct (absorbs rt e); [|discriminate]. intros [= <-]. constructor.
    + intros [= <-]. apply unique_names_dir in Hu as [Hd _]. now apply direct_NoDup.
  - now apply rglob_NoDup.
  - intros [= <-]. now apply collect_files_NoDup.
Qed.

End NoRepeats.

(** ** The further properties on the samples *)

Module OnSamplesMore.
Import Text Pathlib Recursive Batch TreeMeasures.

Lemma direct_first_on_nested :
  exists rest,
    snd (get_files_by_extension Py311 Samples.nested ".txt" 2)
    = Returned ([["top.txt"]] ++ rest)%list.
Proof.
  apply ScanMore.direct_matches_first; [reflexivity|lia|lia|reflexivity].
Defined.

Lemma names_line_on_nested :
  print_list "files with extensions" (map name [["top.txt"]])
  = MsgList "files with extensions" "None found"
  <-> [["top.txt"]] = [].
Proof.
  apply (@ReportFacts.names_line_none_found Py311 Samples.nested ".txt" 0);
    reflexivity.
Defined.

Lemma uppercase_on_nested :
  ".TXT" <> lower ".TXT"
  /\ forall p, In p [["TOP.TXT"]] -> ~ has_suffix (lower ".TXT") (name p).
Proof.
  split; [discriminate|].
  apply (@ReportFacts.uppercase_extension_misses_lowercase
           Py311 Samples.nested ".TXT" 0).
  - reflexivity.
  - discriminate.
  - reflexivity.
Defined.

Lemma failing_batch_stops :
  raised (scan_directories Py311 SampleBatches.failing [".txt"]) = Some OSError
  /\ stdout (scan_directories Py311 SampleBatches.failing [".txt"])
     = flat_map
         (fun b => stdout (process_and_print_files Py311 (holds (fst b))
                             (shown (fst b)) (snd b) (depth (fst b))))
         [].
Proof.
  apply (@BatchFacts.batch_stops_at_exception Py311 SampleBatches.failing [".txt"] []
           ({| holds := Some Samples.faulty; shown := "faulty"; depth := -1 |}, ".txt")
           [({| holds := Some Samples.nested; shown := "nested"; depth := 0 |}, ".txt")]
           OSError).
  - reflexivity.
  - intros b [].
  - reflexivity.
Defined.

Lemma simple_and_flat_on_nested :
  Simple.raised (Simple.script Py311 (Some Samples.nested) "root" ".txt")
  = Flat.raised (Flat.process_and_print_files Py311 (Some Samples.nested) "root" ".txt")
  /\ Variants.simple_bodies
       (Simple.stdout (Simple.script Py311 (Some Samples.nested) "root" ".txt"))
     = Variants.flat_bodies
         (Flat.stdout
            (Flat.process_and_print_files Py311 (Some Samples.nested) "root" ".txt")).
Proof.
  apply Variants.simple_agrees_with_flat; reflexivity.
Defined.

Lemma padded_yes :
  Cfp2json.infer_type (" " ++ "yes" ++ "  ") = Cfp2json.infer_type "yes".
Proof.
  apply InferTypeFacts.infer_type_ignores_padding; reflexivity.
Defined.

Lemma stable_x :
  strip "x" = "x" /\ Cfp2json.infer_type "x" = Cfp2json.VStr "x".
Proof.
  apply (@InferTypeFacts.string_result_is_stable " x "). reflexivity.
Defined.

Lemma unsigned_007 : Cfp2json.pure_digits (strip "007") /\ 0 <= 7.
Proof.
  apply (@InferTypeFacts.integer_result_is_unsigned "007" 7). reflexivity.
Defined.

Lemma yes_in_capitals :
  Cfp2json.infer_type "YES" = Cfp2json.VBool true
  <-> Cfp2json.infer_type "yes" = Cfp2json.VBool true.
Proof.
  apply InferTypeFacts.boolean_ignores_case. reflexivity.
Defined.

Lemma no_repeats_on_nested :
  NoDup [["top.txt"]; ["a"; "b"; "x.txt"]; ["a"; "b"; "c"; "file.txt"]].
Proof.
  apply (@NoRepeats.one_entry_per_path Py311 Samples.nested ".txt" (-1));
    reflexivity.
Defined.

End OnSamplesMore.

(** ** The traversals where os.stat can fail *)

Module FallibleFacts.
Import Text Pathlib Recursive Fallible TreeFacts ScanFacts ScanSpec.

Lemma visited_listed stat_error directory n rel t :
  visited stat_error directory n rel t -> listed n rel t.
Proof.
  induction 1 as [directory entries nm t Hin
                 |directory entries nm sub rest t (before & later & -> & _) _ IH].
  - now apply listed_entry.
  - eapply listed_below; [|exact IH]. apply in_elt.
Qed.



Lemma visited_nonempty stat_error directory n rel t :
  visited stat_error directory n rel t -> rel <> [].
Proof. intros H. apply visited_listed in H. eapply listed_nonempty; eauto. Qed.

Lemma loop_reaches_head stat_error directory nm0 sub0 entries nm sub :
  loop_reaches stat_error directory ((nm0, sub0) :: entries) nm sub <->
  stat_error (child directory nm0) = None
  /\ ((nm0, sub0) = (nm, sub) \/ loop_reaches stat_error directory entries nm sub).
Proof.
  unfold loop_reaches. split.
  - intros ([|entry before] & later & Heq & Hok); simpl in Heq.
    + injection Heq as -> -> <-. split; [apply (Hok (nm, sub)); now left|now left].
    + injection Heq as <- ->. split; [apply (Hok (nm0, sub0)); now left|].
      right. exists before, later. split; [reflexivity|].
      intros entry Hin. apply Hok. now right.
  - intros [H0 [[= <- <-]|(before & later & -> & Hok)]].
    + exists [], entries. split; [reflexivity|]. intros entry [<-|[]]. exact H0.
    + exists ((nm0, sub0) :: before), later. split; [reflexivity|].
      intros entry [<-|Hin]; [exact H0|now apply Hok].
Qed.

Lemma loop_reaches_nil stat_error directory nm sub :
  ~ loop_reaches stat_error directory [] nm sub.
Proof. intros ([|? ?] & later & Heq & _); discriminate. Qed.

Section Traversals.

Variable rt : runtime.
Variable stat_error : stat_errors.
Variable extension : string.

(** What the bounded traversal from [n], itself at [directory], reports. *)
Definition collected (directory : path) (n : node) (current_depth max_depth : Z)
    (p : path) : Prop :=
  exists rel t,
    p = (directory ++ rel)%list /\ visited stat_error directory n rel t
    /\ glob_match extension (name rel) = true
    /\ in_bound current_depth max_depth rel.

Lemma not_collected_leaf directory n current_depth max_depth p :
  (forall entries, n <> Dir None entries) ->
  ~ collected directory n current_depth max_depth p.
Proof.
  intros Hn (rel & t & _ & Hv & _). apply visited_listed in Hv.
  destruct (listed_is_dir Hv) as [entries ->]. now apply (Hn entries).
Qed.

Lemma collect_files_reaches n :
  forall current_dir current_depth max_depth st p,
    stat_error current_dir = None ->
    (In p (files (collect_files rt stat_error extension current_dir n
                    current_depth max_depth st))
     <-> In p (files st) \/ collected current_dir n current_depth max_depth p).
Proof.
  induction n as [|failure entries IH] using node_ind;
    intros current_dir current_depth max_depth st p Hstat.
  - pose proof (@not_collected_leaf current_dir File current_depth max_depth p) as Hno.
    cbn [collect_files]. unfold glob. rewrite Hstat. simpl.
    destruct (current_depth <? max_depth); simpl; rewrite app_nil_r;
      split; auto; intros [H1|H1]; auto; exfalso; apply Hno; first [discriminate|exact H1].
  - destruct failure as [e|].
    + pose proof (@not_collected_leaf current_dir (Dir (Some e) entries)
                    current_depth max_depth p) as Hno.
      cbn [collect_files]. unfold glob. rewrite Hstat. simpl.
      destruct (absorbs rt e); [destruct (current_depth <? max_depth)|];
        simpl; rewrite ?app_nil_r; split; auto; intros [H1|H1]; auto;
        exfalso; apply Hno; first [discriminate|exact H1].
    + cbn [collect_files]. unfold glob. rewrite Hstat. cbn [Pathlib.glob].
      set (here := map (child current_dir)
                     (filter (glob_match extension) (map fst entries))).
      set (st1 := files_extend here (call (CallGlob current_dir) st)).
      assert (Hhere : In p (files st1) <->
                In p (files st) \/
                exists nm t, p = child current_dir nm /\ In (nm, t) entries
                             /\ glob_match extension nm = true).
      { unfold st1. rewrite files_files_extend, files_call, in_app_iff.
        unfold here. now rewrite direct_matches. }
      destruct (current_depth <? max_depth) eqn:Hlt.
      * apply Z.ltb_lt in Hlt.
        set (body := fun (st : scan_state) (entry : string * node) =>
               let subdir := child current_dir (fst entry) in
               let st := call (CallIsDir subdir) st in
               match stat_error subdir with
               | Some _ => (st, true)
               | None =>
                   if is_dir (snd entry)
                   then (collect_files rt stat_error extension subdir (snd entry)
                           (current_depth + 1) max_depth st, false)
                   else (st, false)
               end).
        assert (Hloop : forall st0,
                  In p (files (for_each body entries st0)) <->
                  In p (files st0) \/
                  exists nm sub, loop_reaches stat_error current_dir entries nm sub
                    /\ collected (child current_dir nm) sub
                         (current_depth + 1) max_depth p).
        { clear -IH. induction entries as [|[nm0 sub0] entries IHe]; intros st0.
          - simpl. split; auto. intros [H1|(nm & sub & Hr & _)]; [exact H1|].
            now apply loop_reaches_nil in Hr.
          - apply Forall_cons_iff in IH as [IH0 IHrest]. simpl in IH0.
            cbn [for_each]. unfold body at 1. cbn [fst snd]. cbv zeta.
            destruct (stat_error (child current_dir nm0)) as [e|] eqn:Hs.
            + rewrite files_call. split; auto.
              intros [H1|(nm & sub & Hr & _)]; [exact H1|].
              apply loop_reaches_head in Hr as [Hr _]. congruence.
            + assert (Hfirst :
                  forall st', In p (files st') <-> In p (files st0) \/
                     collected (child current_dir nm0) sub0
                       (current_depth + 1) max_depth p ->
                  (In p (files (for_each body entries st')) <->
                   In p (files st0) \/
                   exists nm sub,
                     loop_reaches stat_error current_dir ((nm0, sub0) :: entries) nm sub
                     /\ collected (child current_dir nm) sub
                          (current_depth + 1) max_depth p)).
              { intros st' Hst'. rewrite (IHe IHrest), Hst'. split.
                - intros [[H1|H1]|(nm & sub & Hr & Hc)]; auto.
                  + right. exists nm0, sub0. split; [|exact H1].
                    apply loop_reaches_head. auto.
                  + right. exists nm, sub. split; [|exact Hc].
                    apply loop_reaches_head. auto.
                - intros [H1|(nm & sub & Hr & Hc)]; auto.
                  apply loop_reaches_head in Hr as [_ [[= <- <-]|Hr]]; auto.
                  right. exists nm, sub. auto. }
              destruct (is_dir sub0) eqn:Hd; apply Hfirst.
              * now rewrite (IH0 _ _ _ _ _ Hs), files_call.
              * rewrite files_call. split; auto.
                intros [H1|H1]; [exact H1|]. exfalso.
                eapply not_collected_leaf; [|exact H1].
                intros es ->. discriminate. }
        fold body. rewrite Hloop, files_call, Hhere. unfold collected, in_bound.
        split.
        -- intros [[H1|(nm & t & -> & Hin & Hm)]
                  |(nm & sub & Hr & rel & t & -> & Hv & Hm & Hb)]; auto; right.
           ++ exists [nm], t. repeat split; auto. now apply visited_entry.
           ++ exists (nm :: rel), t. rewrite child_app.
              pose proof (visited_nonempty Hv) as Hne.
              repeat split.
              ** eapply visited_below; eauto.
              ** now rewrite name_cons.
              ** right. unfold nesting_depth in *. simpl List.length.
                 destruct rel; [congruence|]. simpl List.length in *. lia.
        -- intros [H1|(rel & t & -> & Hv & Hm & Hb)]; auto.
           inversion Hv as [? ? nm ? Hin|? ? nm sub rest ? Hr Hv']; subst.
           ++ left; right. now exists nm, t.
           ++ right. exists nm, sub. split; [exact Hr|].
              pose proof (visited_nonempty Hv') as Hne.
              exists rest, t. rewrite child_app. repeat split; auto.
              ** now rewrite name_cons in Hm.
              ** right. unfold nesting_depth in *. simpl List.length in Hb.
                 destruct rest; [congruence|]. simpl List.length in *. lia.
      * apply Z.ltb_ge in Hlt. rewrite Hhere. unfold collected, in_bound.
        split.
        -- intros [H1|(nm & t & -> & Hin & Hm)]; auto. right.
           exists [nm], t. repeat split; auto. now apply visited_entry.
        -- intros [H1|(rel & t & -> & Hv & Hm & Hb)]; auto.
           inversion Hv as [? ? nm ? Hin|? ? nm sub rest ? Hr Hv']; subst.
           ++ right. now exists nm, t.
           ++ pose proof (visited_nonempty Hv') as Hne. exfalso.
              unfold nesting_depth in Hb. simpl List.length in Hb.
              destruct rest; [congruence|]. simpl List.length in *. lia.
Qed.

(** When the scanned directory itself cannot be examined, the bounded
    traversal finds nothing. *)
Lemma collect_files_unexamined n current_dir current_depth max_depth st e :
  stat_error current_dir = Some e ->
  collect_files rt stat_error extension current_dir n current_depth max_depth st
  = call (CallGlob current_dir) st.
Proof.
  intros Hs. destruct n as [|failure entries]; cbn [collect_files];
    unfold glob; now rewrite Hs.
Qed.

End Traversals.

(** A scan that returns reports exactly the scanned entries with a
    matching name that lie within reach. *)
Lemma scan_reaches rt stat_error root extension depth l :
  snd (get_files_by_extension rt stat_error root extension depth) = Returned l ->
  forall p, In p l <->
            (exists t, scanned stat_error depth root p t)
            /\ glob_match extension (name p) = true
            /\ within depth p.
Proof.
  unfold get_files_by_extension, scanned, within.
  destruct (depth =? 0) eqn:H0; [|destruct (depth =? -1) eqn:H1];
    cbn [snd orb]; intros Hs p.
  - unfold glob in Hs. destruct (stat_error []) as [e|]; [discriminate|].
    apply Z.eqb_eq in H0; subst depth.
    assert (Hb : snd (Recursive.get_files_by_extension rt root extension 0)
                 = Returned l) by exact Hs.
    rewrite (ScanSpec.scan_members _ _ _ _ Hb p). unfold within.
    split.
    + intros ([t Ht] & Hm & Hw).
      split; [exists t; split; [reflexivity|exact Ht]|split; assumption].
    + intros ([t [_ Ht]] & Hm & Hw).
      split; [exists t; exact Ht|split; assumption].
  - unfold rglob in Hs. destruct (stat_error []) as [e|]; [discriminate|].
    apply Z.eqb_eq in H1; subst depth.
    assert (Hb : snd (Recursive.get_files_by_extension rt root extension (-1))
                 = Returned l) by exact Hs.
    rewrite (ScanSpec.scan_members _ _ _ _ Hb p). unfold within.
    split.
    + intros ([t Ht] & Hm & Hw).
      split; [exists t; split; [reflexivity|exact Ht]|split; assumption].
    + intros ([t [_ Ht]] & Hm & Hw).
      split; [exists t; exact Ht|split; assumption].
  - apply Z.eqb_neq in H0, H1. injection Hs as <-.
    destruct (stat_error []) as [e|] eqn:Hroot.
    + rewrite (@collect_files_unexamined rt stat_error extension root [] 0 depth _ e Hroot).
      simpl. split; [intros []|]. intros ([t [Hn _]] & _). discriminate.
    + rewrite (@collect_files_reaches rt stat_error extension root [] 0 depth _ p Hroot).
      simpl files. unfold collected, in_bound. split.
      * intros [[]|(rel & t & -> & Hv & Hm & Hb)]. simpl.
        repeat split; eauto. right. unfold nesting_depth in *.
        destruct Hb as [->|Hb]; lia.
      * intros ([t [_ Hv]] & Hm & [Hd|Hd]); [lia|]. right.
        exists p, t. repeat split; auto.
        pose proof (visited_nonempty Hv) as Hne. unfold nesting_depth in *.
        destruct p as [|x [|y p]]; [congruence|now left|right].
        simpl List.length in *. lia.
Qed.

Lemma scan_completes rt stat_error root extension depth :
  (stat_error [] = None /\ tolerated rt root = true)
  \/ (depth <> 0 /\ depth <> -1) ->
  exists l, snd (get_files_by_extension rt stat_error root extension depth)
            = Returned l.
Proof.
  unfold get_files_by_extension.
  destruct (depth =? 0) eqn:H0; [|destruct (depth =? -1) eqn:H1]; simpl snd.
  - apply Z.eqb_eq in H0. intros [[Hs Ht]|[]]; [|congruence].
    unfold glob. rewrite Hs.
    destruct root as [|[e|] entries]; simpl in *; eauto. rewrite Ht. eauto.
  - apply Z.eqb_eq in H1. intros [[Hs Ht]|[]]; [|congruence].
    unfold rglob. rewrite Hs. now apply rglob_returns.
  - eauto.
Qed.

(** Without stat failures the traversal is the one of [Recursive]. *)
Lemma for_each_never_raised (A S : Type) (body : S -> A -> S * bool)
    (step : S -> A -> S) items :
  (forall st item, In item items -> body st item = (step st item, false)) ->
  forall st, for_each body items st = fold_left step items st.
Proof.
  induction items as [|item items IH]; intros Hb st; [reflexivity|].
  cbn [for_each fold_left]. rewrite (Hb st item (or_introl eq_refl)).
  apply IH. intros st' item' Hin. apply Hb. now right.
Qed.

Lemma collect_files_without_failures rt extension n :
  forall current_dir current_depth max_depth st,
    collect_files rt no_stat_error extension current_dir n current_depth max_depth st
    = Recursive.collect_files rt extension current_dir n current_depth max_depth st.
Proof.
  induction n as [|failure entries IH] using node_ind;
    intros current_dir current_depth max_depth st; [reflexivity|].
  destruct failure as [e|]; [reflexivity|].
  cbn [collect_files Recursive.collect_files]. unfold glob, no_stat_error.
  cbn [Pathlib.glob]. destruct (current_depth <? max_depth); [|reflexivity].
  apply for_each_never_raised. intros st' entry Hin. cbv zeta.
  rewrite Forall_forall in IH. destruct (is_dir (snd entry)); [|reflexivity].
  now rewrite (IH entry Hin).
Qed.

Lemma scan_without_failures rt root extension depth :
  get_files_by_extension rt no_stat_error root extension depth
  = Recursive.get_files_by_extension rt root extension depth.
Proof.
  unfold get_files_by_extension, Recursive.get_files_by_extension.
  destruct (depth =? 0); [reflexivity|]. destruct (depth =? -1); [reflexivity|].
  now rewrite collect_files_without_failures.
Qed.

Lemma process_without_failures rt directory shown extension depth :
  process_and_print_files rt no_stat_error directory shown extension depth
  = Recursive.process_and_print_files rt directory shown extension depth.
Proof.
  unfold process_and_print_files, Recursive.process_and_print_files,
    validate_path, Recursive.validate_path, validate_extension, report,
    Recursive.report, no_stat_error.
  destruct directory as [n|]; [|reflexivity].
  destruct (is_dir n); [|reflexivity]. cbn [negb]. cbv iota.
  destruct (known_extension extension); [|reflexivity]. cbn [negb]. cbv iota.
  fold no_stat_error. now rewrite scan_without_failures.
Qed.

End FallibleFacts.

(** ** The bounded scan where os.stat can fail *)

Module StatFailures.
Import Text Pathlib Recursive Fallible TreeFacts ScanFacts ScanSpec FallibleFacts.


(** C9. In every depth mode, whenever the scan returns (it does in the
    bounded branch, and in the other two when the scanned directory can be
    examined and every failed listing is absorbed), an entry that the scan
    comes to and that lies within reach of the depth argument is reported
    as soon as its name ends with the extension, whatever lies at that
    path: a directory as well as a file. *)
Theorem match_ignores_entry_kind rt stat_error root extension depth :
  known_extension extension = true ->
  (stat_error [] = None /\ tolerated rt root = true)
  \/ (depth <> 0 /\ depth <> -1) ->
  exists l,
    snd (get_files_by_extension rt stat_error root extension depth) = Returned l
    /\ forall p t, scanned stat_error depth root p t ->
                   has_suffix extension (name p) -> within depth p -> In p l.
Proof.
  intros _ Hok.
  destruct (@scan_completes rt stat_error root extension depth Hok) as [l Hl].
  exists l. split; [exact Hl|]. intros p t Ht Hm Hw.
  apply (scan_reaches _ _ _ _ _ Hl). repeat split; eauto.
  now apply glob_match_spec.
Qed.

(** C3 (the code against the claim).  Under CPython up to 3.11, with depth
    -1 and with depth 0, a listing that fails with an [OSError] other than
    [PermissionError] is not skipped: the exception reaches the caller and
    nothing is reported, where the bounded branch on the same tree skips
    the directory and reports the match beside it.  In the bounded branch
    itself, an entry that cannot be examined ends the loop over its
    directory: the directories listed after it are not scanned, and the
    match that the scan reports without the failure is missing. *)
Theorem listing_errors_not_skipped :
  process_and_print_files Py311 no_stat_error (Some Samples.faulty) "root" ".txt" (-1)
    = {| calls := [CallExists []; CallIsDir []; CallRglob []];
         stdout := [];
         raised := Some OSError |}
  /\ process_and_print_files Py311 no_stat_error (Some Samples.unlistable)
       "root" ".txt" 0
     = {| calls := [CallExists []; CallIsDir []; CallGlob []];
          stdout := [];
          raised := Some OSError |}
  /\ snd (get_files_by_extension Py311 no_stat_error Samples.faulty ".txt" 1)
     = Returned [["ok"; "match.txt"]]
  /\ snd (get_files_by_extension Py311 FaultySamples.denied_entry
            FaultySamples.searched ".txt" 2)
     = Returned [["top.txt"]]
  /\ snd (get_files_by_extension Py311 no_stat_error FaultySamples.searched ".txt" 2)
     = Returned [["top.txt"]; ["ok"; "match.txt"]].
Proof. repeat split. Qed.

(** C2 (as the code has it).  The path is validated first.  For an
    extension outside the allow-list (compared in lower case): when the
    [os.stat] behind [exists] raises, that exception reaches the caller and
    nothing is printed; otherwise, on a directory the scan checks that the
    path exists and is a directory, prints the unknown-extension line and
    stops, without any [glob], [rglob] or [iterdir] and without an
    exception; on a path that holds nothing or is not a directory it prints
    that diagnostic instead and never the unknown-extension line. *)
Theorem unknown_extension_skipped rt stat_error directory shown extension depth :
  known_extension extension = false ->
  (forall e, stat_error [] = Some e ->
     process_and_print_files rt stat_error directory shown extension depth
     = {| calls := [CallExists []]; stdout := []; raised := Some e |})
  /\ (stat_error [] = None ->
      (forall n, directory = Some n -> is_dir n = true ->
         process_and_print_files rt stat_error directory shown extension depth
         = {| calls := [CallExists []; CallIsDir []];
              stdout := [MsgUnknownExtension extension]; raised := None |})
      /\ (directory = None ->
          process_and_print_files rt stat_error directory shown extension depth
          = {| calls := [CallExists []]; stdout := [MsgMissing shown];
               raised := None |})
      /\ (forall n, directory = Some n -> is_dir n = false ->
          process_and_print_files rt stat_error directory shown extension depth
          = {| calls := [CallExists []; CallIsDir []];
               stdout := [MsgNotADirectory shown]; raised := None |})).
Proof.
  intros Hk. unfold process_and_print_files, validate_path, validate_extension.
  split.
  - intros e ->. reflexivity.
  - intros ->. repeat split.
    + intros n -> Hn. now rewrite Hn, Hk.
    + now intros ->.
    + intros n -> Hn. now rewrite Hn.
Qed.



(** X3. Among the depth arguments other than -1, a larger one only adds
    matches: every match of a scan is a match of the scan of the same tree
    with a larger depth argument. *)
Theorem deeper_scan_finds_more rt stat_error root extension N M lN lM :
  known_extension extension = true ->
  N <> -1 -> M <> -1 -> N <= M ->
  snd (get_files_by_extension rt stat_error root extension N) = Returned lN ->
  snd (get_files_by_extension rt stat_error root extension M) = Returned lM ->
  incl lN lM.
Proof.
  intros _ HN HM Hle HlN HlM p Hp.
  apply (scan_reaches _ _ _ _ _ HlM). apply (scan_reaches _ _ _ _ _ HlN) in Hp.
  destruct Hp as ([t [Hroot Ht]] & Hm & Hw).
  assert (Hw' : nesting_depth p <= Z.max 0 N) by (destruct Hw; [congruence|assumption]).
  split; [|split; [exact Hm|right; lia]].
  exists t. split; [exact Hroot|].
  apply Z.eqb_neq in HN, HM. rewrite HN, HM, !orb_false_r in *.
  destruct (M =? 0) eqn:HM0.
  - destruct (N =? 0); [exact Ht|now apply visited_listed in Ht].
  - destruct (N =? 0) eqn:HN0; [|exact Ht].
    apply Z.eqb_eq in HN0; subst N. simpl Z.max in Hw'.
    destruct (listed_depth0 Ht Hw') as (nm & entries & -> & -> & Hin).
    now apply visited_entry.
Qed.




End StatFailures.

(** ** Reports and batches where os.stat can fail *)

Module StatFailureReports.
Import Text Pathlib Recursive Fallible TreeFacts ScanFacts ScanSpec FallibleFacts.

Lemma report_returns rt stat_error root shown extension depth l :
  snd (get_files_by_extension rt stat_error root extension depth) = Returned l ->
  raised (report rt stat_error root shown extension depth) = None.
Proof.
  unfold report.
  destruct (get_files_by_extension rt stat_error root extension depth) as [cs r].
  simpl. now intros ->.
Qed.

Lemma process_returns rt stat_error directory shown extension depth :
  stat_error [] = None ->
  (forall n, directory = Some n ->
     exists l, snd (get_files_by_extension rt stat_error n extension depth)
               = Returned l) ->
  raised (process_and_print_files rt stat_error directory shown extension depth)
  = None.
Proof.
  intros Hs Hl. unfold process_and_print_files, validate_path, validate_extension.
  rewrite Hs. destruct directory as [n|]; [|reflexivity].
  destruct (is_dir n); [|reflexivity]. simpl negb. cbv iota.
  destruct (known_extension extension); [|reflexivity].
  destruct (Hl n eq_refl) as [l Hn]. simpl. now apply report_returns with l.
Qed.

(** The bounded branch with a depth below -1. *)
Lemma negative_depth_branch rt stat_error root extension d :
  d < -1 ->
  get_files_by_extension rt stat_error root extension d =
  ([CallGlob []],
   Returned match glob rt stat_error [] root extension with
            | Returned found => found
            | Raised _ => []
            end).
Proof.
  intros Hd. unfold get_files_by_extension.
  replace (d =? 0) with false by (symmetry; apply Z.eqb_neq; lia).
  replace (d =? -1) with false by (symmetry; apply Z.eqb_neq; lia).
  destruct root as [|failure entries]; cbn [collect_files];
    destruct (glob rt stat_error [] _ extension);
    replace (0 <? d) with false by (symmetry; apply Z.ltb_ge; lia);
    reflexivity.
Qed.

(** X8. On a directory that [os.stat] can examine, with a depth below -1
    the script never raises, and whenever the run with depth 0 on the same
    directory raises nothing, the two runs make the same filesystem calls
    and print the same lines except for the header, which reads
    "<depth> levels deep" with the negative number. *)
Theorem negative_depth_report rt stat_error root shown extension d :
  known_extension extension = true ->
  is_dir root = true ->
  stat_error [] = None ->
  d < -1 ->
  let deep := process_and_print_files rt stat_error (Some root) shown extension d in
  let flat := process_and_print_files rt stat_error (Some root) shown extension 0 in
  raised deep = None
  /\ (raised flat = None ->
      calls deep = calls flat
      /\ stdout deep = MsgHeader shown extension (LevelsDeep d) :: tl (stdout flat)
      /\ hd (MsgMissing shown) (stdout flat)
         = MsgHeader shown extension CurrentDirectoryOnly).
Proof.
  intros Hk Hdir Hs Hd.
  unfold process_and_print_files, validate_path, validate_extension, report.
  rewrite Hs, Hdir, Hk. cbn [negb]. cbv iota zeta.
  rewrite (negative_depth_branch rt stat_error root extension Hd).
  unfold get_files_by_extension. cbn [Z.eqb].
  assert (Hdesc : describe d = LevelsDeep d).
  { unfold describe.
    replace (d =? 0) with false by (symmetry; apply Z.eqb_neq; lia).
    now replace (d =? -1) with false by (symmetry; apply Z.eqb_neq; lia). }
  rewrite Hdesc.
  destruct (glob rt stat_error [] root extension) as [found|e] eqn:Hg; simpl;
    rewrite ?Hg; simpl.
  - repeat split.
  - split; [reflexivity|discriminate].
Qed.

(** The scan of one combination of the product. *)
Definition scan_under (rt : runtime) (combination : target * string) : run :=
  process_and_print_files rt (unreadable (fst combination))
    (holds (fst combination)) (shown (fst combination))
    (snd combination) (depth (fst combination)).

(** Nothing that the scan of this directory does can raise: [os.stat]
    answers on its path, and the path holds nothing, or the bounded branch
    is taken, or every failed listing is absorbed by [glob]. *)
Definition shielded (rt : runtime) (t : target) : Prop :=
  unreadable t [] = None
  /\ match holds t with
     | None => True
     | Some n => (depth t <> 0 /\ depth t <> -1) \/ tolerated rt n = true
     end.

Lemma batch_unfold rt pairs extensions :
  scan_directories rt pairs extensions
  = fold_right (fun c rest => Batch.and_then (scan_under rt c) rest) Batch.finished
      (list_prod pairs extensions).
Proof. reflexivity. Qed.

Lemma shielded_scan rt c : shielded rt (fst c) -> raised (scan_under rt c) = None.
Proof.
  unfold shielded, scan_under. intros [Hs H].
  apply process_returns; [exact Hs|]. intros n Hn. rewrite Hn in H.
  apply scan_completes. tauto.
Qed.

Lemma quiet_runs rt cs :
  (forall c, In c cs -> raised (scan_under rt c) = None) ->
  let r := fold_right (fun c rest => Batch.and_then (scan_under rt c) rest)
             Batch.finished cs in
  raised r = None
  /\ stdout r = flat_map (fun c => stdout (scan_under rt c)) cs
  /\ calls r = flat_map (fun c => calls (scan_under rt c)) cs.
Proof.
  induction cs as [|c cs IH]; intros Hq; [repeat split|].
  destruct IH as (Hr & Hs & Hc); [intros c' Hin; apply Hq; now right|].
  cbv zeta in *. cbn [fold_right flat_map].
  set (rest := fold_right _ Batch.finished cs) in *.
  unfold Batch.and_then. rewrite (Hq c (or_introl eq_refl)).
  cbn [raised stdout calls]. now rewrite Hr, Hs, Hc.
Qed.

(** X9. When no directory of the batch can make its scan raise ([os.stat]
    answers on its path, and the path holds nothing, or its depth takes the
    bounded branch, or every failed listing is one that [glob] absorbs),
    the batch raises nothing and prints the lines of every combination,
    directory by directory and, for each directory, extension by
    extension. *)
Theorem batch_runs_every_combination rt pairs extensions :
  (forall t, In t pairs -> shielded rt t) ->
  raised (scan_directories rt pairs extensions) = None
  /\ stdout (scan_directories rt pairs extensions)
     = flat_map
         (fun t =>
            flat_map
              (fun extension =>
                 stdout (process_and_print_files rt (unreadable t) (holds t)
                           (shown t) extension (depth t)))
              extensions)
         pairs.
Proof.
  intros Hs. rewrite batch_unfold.
  destruct (@quiet_runs rt (list_prod pairs extensions)) as (Hr & Ho & _).
  { intros [t extension] Hin. apply in_prod_iff in Hin as [Ht _].
    apply shielded_scan. now apply Hs. }
  split; [exact Hr|]. rewrite Ho. clear.
  induction pairs as [|t pairs IH]; [reflexivity|].
  cbn [list_prod flat_map]. rewrite flat_map_app, IH. f_equal.
  now rewrite flat_map_concat_map, map_map, <- flat_map_concat_map.
Qed.

(** X11. A path that [os.stat] can examine and that holds nothing, or
    something that is not a directory, is looked at and reported again for
    every extension of the batch, and never stops it.  A path on which
    [os.stat] raises stops the batch at its first extension, with nothing
    printed. *)
Theorem invalid_directory_per_extension rt t extensions :
  (unreadable t [] = None ->
   (holds t = None ->
    scan_directories rt [t] extensions
    = {| calls := map (fun _ => CallExists []) extensions;
         stdout := map (fun _ => MsgMissing (shown t)) extensions;
         raised := None |})
   /\ (forall n, holds t = Some n -> is_dir n = false ->
         scan_directories rt [t] extensions
         = {| calls := flat_map (fun _ => [CallExists []; CallIsDir []]) extensions;
              stdout := map (fun _ => MsgNotADirectory (shown t)) extensions;
              raised := None |}))
  /\ (forall e, unreadable t [] = Some e -> extensions <> [] ->
        scan_directories rt [t] extensions
        = {| calls := [CallExists []]; stdout := []; raised := Some e |}).
Proof.
  unfold scan_directories. cbn [list_prod]. rewrite app_nil_r. split; [split|].
  - intros Hh. induction extensions as [|x extensions IH]; [reflexivity|].
    cbn [map fold_right fst snd]. rewrite IH.
    unfold process_and_print_files, validate_path. rewrite H, Hh. reflexivity.
  - intros n Hh Hn. induction extensions as [|x extensions IH]; [reflexivity|].
    cbn [map fold_right flat_map fst snd]. rewrite IH.
    unfold process_and_print_files, validate_path. rewrite H, Hh, Hn. reflexivity.
  - intros e He Hx. destruct extensions as [|x extensions]; [congruence|].
    cbn [map fold_right fst snd].
    unfold process_and_print_files, validate_path. rewrite He. reflexivity.
Qed.

(** X15. The simple script checks nothing before it globs.  For a path
    that holds nothing, or something that is not a directory: when
    [os.stat] answers on the path the script prints an ordinary report
    with "None found" twice and raises nothing; when [os.stat] raises, the
    first [glob] raises that exception and nothing is printed. *)
Theorem simple_reports_invalid_directory rt stat_error target shown extension :
  (forall n, target = Some n -> is_dir n = false) ->
  (stat_error [] = None ->
   script rt stat_error target shown extension
   = {| Simple.calls := [CallGlob []; CallGlob []];
        Simple.stdout := [Simple.MsgHeader shown extension;
                          Simple.MsgList "Files with extension" "None found";
                          Simple.MsgList "File stems" "None found"];
        Simple.raised := None |})
  /\ (forall e, stat_error [] = Some e ->
        script rt stat_error target shown extension
        = {| Simple.calls := [CallGlob []]; Simple.stdout := [];
             Simple.raised := Some e |}).
Proof.
  intros Hn. unfold script, glob_at. split.
  - intros ->. destruct target as [[|f es]|].
    + reflexivity.
    + specialize (Hn _ eq_refl). discriminate.
    + reflexivity.
  - intros e ->. reflexivity.
Qed.

End StatFailureReports.

(** ** infer_type under the limit on integer digits *)

Module DigitLimit.
Import Text Cfp2json Limited TextFacts InferType InferTypeFacts.

Lemma int_within max_str_digits v :
  within_limit max_str_digits v -> Limited.int max_str_digits v = Some (Text.int v).
Proof.
  unfold within_limit, Limited.int. intros H.
  destruct (Nat.ltb_spec str_digits_check_threshold (String.length v));
    [|reflexivity].
  destruct (Nat.ltb_spec 0 max_str_digits); [|reflexivity].
  destruct (Nat.ltb_spec max_str_digits (String.length v)); [lia|reflexivity].
Qed.

Lemma int_beyond max_str_digits v :
  ~ within_limit max_str_digits v -> Limited.int max_str_digits v = None.
Proof.
  unfold within_limit, Limited.int. intros H.
  destruct (Nat.ltb_spec str_digits_check_threshold (String.length v)); [|lia].
  destruct (Nat.ltb_spec 0 max_str_digits); [|lia].
  destruct (Nat.ltb_spec max_str_digits (String.length v)); [reflexivity|lia].
Qed.

(** Without a limit the function is [Cfp2json.infer_type]. *)
Lemma infer_type_without_limit val :
  Limited.infer_type 0 val = Value (Cfp2json.infer_type val).
Proof.
  unfold Limited.infer_type, Cfp2json.infer_type. cbv zeta.
  rewrite int_within by (right; now left).
  repeat match goal with |- context [if ?b then _ else _] => destruct b end;
    reflexivity.
Qed.

Lemma limited_infer_type_of_digits max_str_digits v :
  pure_digits v ->
  Limited.infer_type max_str_digits v
  = match Limited.int max_str_digits v with
    | Some n => Value (VInt n)
    | None => ValueError
    end.
Proof.
  intros H. unfold Limited.infer_type. rewrite (strip_digits (proj2 H)).
  destruct (numeric_not_word (or_introl H)) as [-> ->].
  apply fullmatch_digits_spec in H. now rewrite H.
Qed.

(** C8 (as the code has it).  The value is first stripped of surrounding
    whitespace.  The stripped value, compared without regard to letter
    case, gives [True] for true/yes/on and [False] for false/no/off; a
    stripped value of one digit or more gives its integer when it is within
    the interpreter's limit on integer digits, and raises [ValueError] when
    it is longer; one digit or more, a dot and any number of digits (none
    included) gives a float of that literal; every other value gives the
    stripped string. *)
Theorem infer_type_cases (max_str_digits : nat) (val : string) :
  let v := strip val in
  (truthy (lower v) -> Limited.infer_type max_str_digits val = Value (VBool true))
  /\ (falsy (lower v) -> Limited.infer_type max_str_digits val = Value (VBool false))
  /\ (pure_digits v -> within_limit max_str_digits v ->
      Limited.infer_type max_str_digits val = Value (VInt (Text.int v)))
  /\ (pure_digits v -> ~ within_limit max_str_digits v ->
      Limited.infer_type max_str_digits val = ValueError)
  /\ (digits_dot_digits v -> Limited.infer_type max_str_digits val = Value (VFloat v))
  /\ (~ truthy (lower v) -> ~ falsy (lower v) -> ~ pure_digits v ->
      ~ digits_dot_digits v -> Limited.infer_type max_str_digits val = Value (VStr v)).
Proof.
  intros v. unfold Limited.infer_type. fold v. cbv zeta. repeat split.
  - intros H. apply member3 in H. now rewrite H.
  - intros H. destruct (member (lower v) ["true"; "yes"; "on"]) eqn:Ht.
    + apply member3 in Ht. apply truthy_not_falsy in Ht.
      apply member3 in H. congruence.
    + apply member3 in H. now rewrite H.
  - intros H Hw. destruct (numeric_not_word (or_introl H)) as [-> ->].
    apply fullmatch_digits_spec in H. now rewrite H, (int_within Hw).
  - intros H Hw. destruct (numeric_not_word (or_introl H)) as [-> ->].
    apply fullmatch_digits_spec in H. now rewrite H, (int_beyond Hw).
  - intros H. destruct (numeric_not_word (or_intror H)) as [-> ->].
    destruct (fullmatch_digits v) eqn:Hd.
    + apply fullmatch_digits_spec, digits_not_decimal in Hd.
      apply fullmatch_decimal_spec in H. congruence.
    + apply fullmatch_decimal_spec in H. now rewrite H.
  - intros Ht Hf Hd Hp.
    destruct (member (lower v) ["true"; "yes"; "on"]) eqn:E1;
      [now apply member3 in E1|].
    destruct (member (lower v) ["false"; "no"; "off"]) eqn:E2;
      [now apply member3 in E2|].
    destruct (fullmatch_digits v) eqn:E3;
      [now apply fullmatch_digits_spec in E3|].
    destruct (fullmatch_decimal v) eqn:E4;
      [now apply fullmatch_decimal_spec in E4|].
    reflexivity.
Qed.

(** X19. Leading zeros are lost, and they count against the limit on
    integer digits: a digit string with a zero in front converts to the
    same integer as without it when the longer string is within the limit,
    and raises [ValueError] when it is not. *)
Theorem leading_zero_is_dropped max_str_digits v :
  pure_digits v ->
  (within_limit max_str_digits (String "0" v) ->
   Limited.infer_type max_str_digits (String "0" v)
   = Limited.infer_type max_str_digits v)
  /\ (~ within_limit max_str_digits (String "0" v) ->
      Limited.infer_type max_str_digits (String "0" v) = ValueError).
Proof.
  intros H.
  assert (H0 : pure_digits (String "0" v)).
  { destruct H as [_ H]. split; [discriminate|]. now constructor. }
  rewrite (limited_infer_type_of_digits max_str_digits H0),
    (limited_infer_type_of_digits max_str_digits H).
  split; intros Hw.
  - rewrite (int_within Hw), int_within; [reflexivity|].
    unfold within_limit in *. cbn [String.length] in Hw. lia.
  - now rewrite (int_beyond Hw).
Qed.

End DigitLimit.

(** ** The properties on the samples with stat failures *)

Module OnFaultySamples.
Import Text Cfp2json Pathlib Recursive Fallible.


(** The directory [archive.txt] is reported like the file [report.txt]. *)
Lemma directory_match_on_unusual :
  exists l,
    snd (get_files_by_extension Py311 no_stat_error Samples.unusual ".txt" 0)
    = Returned l
    /\ forall p t, scanned no_stat_error 0 Samples.unusual p t ->
                   has_suffix ".txt" (name p) -> within 0 p -> In p l.
Proof.
  apply StatFailures.match_ignores_entry_kind; [reflexivity|left; split; reflexivity].
Defined.

Example archive_directory_reported :
  snd (get_files_by_extension Py311 no_stat_error Samples.unusual ".txt" 0)
    = Returned [[".txt"]; ["report.txt"]; ["archive.txt"]]
  /\ snd (get_files_by_extension Py311 no_stat_error Samples.unusual ".txt" 1)
     = Returned [[".txt"]; ["report.txt"]; ["archive.txt"];
                 ["archive.txt"; "inner.txt"]]
  /\ visited no_stat_error [] Samples.unusual ["archive.txt"]
       (Dir None [("inner.txt", File)]).
Proof.
  repeat split. apply visited_entry. simpl. auto.
Qed.

Lemma unknown_extension_on_nested :
  (forall e, no_stat_error [] = Some e ->
     process_and_print_files Py311 no_stat_error (Some Samples.nested) "root" ".xyz" 2
     = {| calls := [CallExists []]; stdout := []; raised := Some e |})
  /\ (no_stat_error [] = None ->
      (forall n, Some Samples.nested = Some n -> is_dir n = true ->
         process_and_print_files Py311 no_stat_error (Some Samples.nested)
           "root" ".xyz" 2
         = {| calls := [CallExists []; CallIsDir []];
              stdout := [MsgUnknownExtension ".xyz"]; raised := None |})
      /\ (Some Samples.nested = None ->
          process_and_print_files Py311 no_stat_error (Some Samples.nested)
            "root" ".xyz" 2
          = {| calls := [CallExists []]; stdout := [MsgMissing "root"];
               raised := None |})
      /\ (forall n, Some Samples.nested = Some n -> is_dir n = false ->
          process_and_print_files Py311 no_stat_error (Some Samples.nested)
            "root" ".xyz" 2
          = {| calls := [CallExists []; CallIsDir []];
               stdout := [MsgNotADirectory "root"]; raised := None |})).
Proof.
  apply StatFailures.unknown_extension_skipped. reflexivity.
Defined.

(** An unknown extension on a path that cannot be examined: the exception
    comes first. *)
Example unknown_extension_on_overlong :
  process_and_print_files Py311 FaultySamples.overlong (Some Samples.nested)
    "root" ".xyz" 2
  = {| calls := [CallExists []]; stdout := []; raised := Some OSError |}.
Proof. reflexivity. Qed.

Lemma deeper_on_searched :
  incl [["top.txt"]] [["top.txt"]; ["ok"; "match.txt"]].
Proof.
  apply (@StatFailures.deeper_scan_finds_more Py311 no_stat_error
           FaultySamples.searched ".txt" 0 2).
  - reflexivity.
  - lia.
  - lia.
  - lia.
  - reflexivity.
  - reflexivity.
Defined.


Lemma negative_depth_on_nested :
  let deep := process_and_print_files Py311 no_stat_error (Some Samples.nested)
                "root" ".txt" (-2) in
  let flat := process_and_print_files Py311 no_stat_error (Some Samples.nested)
                "root" ".txt" 0 in
  raised deep = None
  /\ (raised flat = None ->
      calls deep = calls flat
      /\ stdout deep = MsgHeader "root" ".txt" (LevelsDeep (-2)) :: tl (stdout flat)
      /\ hd (MsgMissing "root") (stdout flat)
         = MsgHeader "root" ".txt" CurrentDirectoryOnly).
Proof.
  apply StatFailureReports.negative_depth_report;
    [reflexivity|reflexivity|reflexivity|lia].
Defined.

Lemma quiet_batch_runs :
  raised (scan_directories Py311 FaultySamples.quiet [".txt"; ".xyz"]) = None
  /\ stdout (scan_directories Py311 FaultySamples.quiet [".txt"; ".xyz"])
     = flat_map
         (fun t =>
            flat_map
              (fun extension =>
                 stdout (process_and_print_files Py311 (unreadable t) (holds t)
                           (shown t) extension (depth t)))
              [".txt"; ".xyz"])
         FaultySamples.quiet.
Proof.
  apply StatFailureReports.batch_runs_every_combination.
  intros t [<-|[<-|[<-|[]]]]; (split; [reflexivity|]).
  - right. reflexivity.
  - left. simpl. split; lia.
  - exact I.
Defined.

(** What the quiet batch prints. *)
Example quiet_batch_output :
  stdout (scan_directories Py311 FaultySamples.quiet [".txt"])
  = [MsgHeader "guarded" ".txt" UnlimitedRecursion;
     MsgList "files with extensions" "match.txt";
     MsgList "file stems" "match";
     MsgHeader "searched" ".txt" (LevelsDeep 2);
     MsgList "files with extensions" "top.txt";
     MsgList "file stems" "top";
     MsgMissing "missing"].
Proof. reflexivity. Qed.

Lemma simple_on_missing :
  (no_stat_error [] = None ->
   script Py311 no_stat_error None "root" ".pdf"
   = {| Simple.calls := [CallGlob []; CallGlob []];
        Simple.stdout := [Simple.MsgHeader "root" ".pdf";
                          Simple.MsgList "Files with extension" "None found";
                          Simple.MsgList "File stems" "None found"];
        Simple.raised := None |})
  /\ (forall e, no_stat_error [] = Some e ->
        script Py311 no_stat_error None "root" ".pdf"
        = {| Simple.calls := [CallGlob []]; Simple.stdout := [];
             Simple.raised := Some e |}).
Proof.
  apply StatFailureReports.simple_reports_invalid_directory.
  intros n H. discriminate.
Defined.

Example simple_on_overlong :
  script Py311 FaultySamples.overlong None "root" ".pdf"
  = {| Simple.calls := [CallGlob []]; Simple.stdout := [];
       Simple.raised := Some OSError |}.
Proof. reflexivity. Qed.

Lemma zero_before_7 :
  (Limited.within_limit 4300 "07" ->
   Limited.infer_type 4300 "07" = Limited.infer_type 4300 "7")
  /\ (~ Limited.within_limit 4300 "07" ->
      Limited.infer_type 4300 "07" = Limited.ValueError).
Proof.
  apply DigitLimit.leading_zero_is_dropped.
  split; [discriminate|repeat constructor].
Defined.

(** 4300 digits convert; one more digit, a leading zero included, raises
    under the default limit and converts without a limit. *)
Example digits_at_the_limit :
  (exists n, Limited.infer_type 4300 (Limited.replicate 4300 "1")
             = Limited.Value (VInt n))
  /\ Limited.infer_type 4300 (Limited.replicate 4301 "1") = Limited.ValueError
  /\ Limited.infer_type 4300 (String "0" (Limited.replicate 4300 "1"))
     = Limited.ValueError
  /\ (exists n, Limited.infer_type 0 (Limited.replicate 4301 "1")
                = Limited.Value (VInt n)).
Proof.
  split; [eexists; vm_compute; reflexivity|].
  split; [vm_compute; reflexivity|].
  split; [vm_compute; reflexivity|].
  eexists; vm_compute; reflexivity.
Qed.

End OnFaultySamples.
